(** * Generic numeric queries of [CurvePrimitive]

    A shallow embedding of the curve abstraction of geometry-core
    (curve/CurvePrimitive.ts): the base-class queries [curveLength],
    [curveLengthBetweenFractions], [moveSignedDistanceFromFraction],
    [closestPoint], [appendPlaneIntersectionPoints] and the three stroke
    handlers that implement them ([CurveLengthContext],
    [ClosestPointStrokeHandler], [AppendPlaneIntersectionStrokeHandler]).

    Numbers.  The source computes with IEEE doubles.  Here a [number] is an
    exact rational in canonical form ([Qc]), so [===] is Leibniz equality and
    the order is total: rounding, NaN and the infinities are not represented.
    In [Qc] a division by zero yields [0]; a theorem below whose conclusion
    rests on the value of a quotient carries the hypothesis that the divisor
    is not zero, and no example divides by zero.  The source divides by a
    possibly zero number in two places, both in the generic repositioner:
    the seed [absDistance / availableLength] and the Newton step
    [distanceError / tangentMagnitude], which are NaN or infinite there.
    Because doubles round, the theorems equate a result only with an
    expression the source computes by the same operations in the same
    order, and state no identity of exact arithmetic that rounding
    breaks. *)

From Stdlib Require Import QArith Qcanon Qcabs ZArith List Bool Lia Lqa.
Import ListNotations.
Open Scope Qc_scope.

#[warnings="-notation-for-abbreviation"]
Notation number := Qc (only parsing).

(** Integer and fraction literals. *)
Definition int (z : Z) : number := Q2Qc (inject_Z z).
Definition frac (n : Z) (d : positive) : number := Q2Qc (n # d).

(** ** The operators of the language on numbers *)
Module Js.

Definition ltb (x y : number) : bool :=
  match x ?= y with Lt => true | _ => false end.
Definition gtb (x y : number) : bool := ltb y x.
Definition leb (x y : number) : bool :=
  match x ?= y with Gt => false | _ => true end.
Definition geb (x y : number) : bool := leb y x.
(** [===] and [!==] *)
Definition eqb (x y : number) : bool :=
  match x ?= y with Eq => true | _ => false end.
Definition neb (x y : number) : bool := negb (eqb x y).

(** [Math.abs], [Math.max], [Math.min] *)
Definition abs (x : number) : number := if ltb x 0 then - x else x.
Definition max (x y : number) : number := if ltb x y then y else x.
Definition min (x y : number) : number := if ltb y x then y else x.

End Js.

(** ** Points, vectors and rays (geometry3d) *)

Record Point3d : Type := mkPoint3d { px : number; py : number; pz : number }.
Record Vector3d : Type := mkVector3d { vx : number; vy : number; vz : number }.
Record Ray3d : Type := mkRay3d { origin : Point3d; direction : Vector3d }.

(** The quadrature rule a [CurveLengthContext] holds in [_gaussMapper]. *)
Inductive GaussMapper : Type :=
  | setupGauss1 | setupGauss2 | setupGauss3 | setupGauss4 | setupGauss5.

Definition gaussOrder (m : GaussMapper) : Z :=
  match m with
  | setupGauss1 => 1 | setupGauss2 => 2 | setupGauss3 => 3
  | setupGauss4 => 4 | setupGauss5 => 5
  end%Z.

(** The numeric collaborators whose code lies outside CurvePrimitive.ts are
    taken as parameters; every theorem holds for any choice of them.

    - [sqrt]: [Math.sqrt], used by [Point3d.distance] and
      [Vector3d.magnitude];
    - [fractionOfProjectionToLine spacePoint point0 point1 defaultFraction]:
      [Point3d.fractionOfProjectionToLine];
    - [runIterations evaluate x]: [Newton1dUnboundedApproximateDerivative],
      as the sequence [setX x; runIterations (); getX ()] on the evaluator
      [evaluate] ([None] when the iteration reports failure; [evaluate]
      returns [None] where the evaluator's [evaluate] returns false);
    - [setupGauss m xA xB]: [Quadrature.setupGauss1] .. [setupGauss5], the
      list of (abscissa, weight) pairs mapped to the interval [xA, xB];
    - [solveCoffs]: [Order2Bezier.solveCoffs]. *)
Class Numerics : Type := {
  sqrt : number -> number;
  fractionOfProjectionToLine : Point3d -> Point3d -> Point3d -> number -> number;
  runIterations : (number -> option number) -> number -> option number;
  setupGauss : GaussMapper -> number -> number -> list (number * number);
  solveCoffs : number -> number -> option number
}.

(** ** Geometry.ts *)
Module Geometry.

(** Modelled from the spec: [Geometry.interpolate] is missing from the
    sources; "linear interpolation in fraction space" between [a] and
    [b] at fraction [f]. *)
Definition interpolate (a f b : number) : number := a + f * (b - a).

(** Modelled from the spec: [Geometry.isIn01] is missing; the test that a
    fraction has not left [0,1]. *)
Definition isIn01 (x : number) : bool := Js.leb 0 x && Js.leb x 1.

(** Modelled from the spec: [Geometry.clampToStartEnd] is missing; "clamp
    the projection to [0,1]". *)
Definition clampToStartEnd (x a b : number) : number :=
  let lo := if Js.gtb a b then b else a in
  let hi := if Js.gtb a b then a else b in
  if Js.ltb x lo then lo else if Js.ltb hi x then hi else x.

Definition largeFractionResult : number := int (10 ^ 10).

(** Modelled from the spec: [Geometry.conditionalDivideFraction] is
    missing; the quotient, or undefined when it would exceed
    [largeFractionResult] in magnitude (in particular when the
    denominator is zero). *)
Definition conditionalDivideFraction (numerator denominator : number)
  : option number :=
  if Js.gtb (Js.abs denominator * largeFractionResult) (Js.abs numerator)
  then Some (numerator / denominator)
  else None.

(** Modelled from the spec: [Geometry.inverseInterpolate] is missing;
    "interpolate a seed root" of the line through (x0,f0) and (x1,f1).
    The quotient is tested for truthiness, so a zero quotient gives
    undefined as well. *)
Definition inverseInterpolate (x0 f0 x1 f1 : number) : option number :=
  match conditionalDivideFraction (0 - f0) (f1 - f0) with
  | Some g => if Js.eqb g 0 then None else Some (interpolate x0 g x1)
  | None => None
  end.

End Geometry.

(** ** Point3dVector3d.ts, Ray3d.ts *)
Section PointOperations.
Context {N : Numerics}.

(** Modelled from the spec: [Point3d.distance] is missing; the "true
    point-distance". *)
Definition distance (p q : Point3d) : number :=
  sqrt ((px q - px p) * (px q - px p) + (py q - py p) * (py q - py p)
        + (pz q - pz p) * (pz q - pz p)).

(** Modelled from the spec: [Vector3d.magnitude] is missing; the
    "tangent-magnitude (speed)". *)
Definition magnitude (v : Vector3d) : number :=
  sqrt (vx v * vx v + vy v * vy v + vz v * vz v).

End PointOperations.

(** Modelled from the spec: [Point3d.interpolate] is missing; the point at
    [fraction] on the chord from [p] to [q]. *)
Definition interpolatePoint (p : Point3d) (fraction : number) (q : Point3d)
  : Point3d :=
  mkPoint3d (Geometry.interpolate (px p) fraction (px q))
            (Geometry.interpolate (py p) fraction (py q))
            (Geometry.interpolate (pz p) fraction (pz q)).

(** Modelled from the spec: [Ray3d.dotProductToPoint] is missing; the dot
    product of the ray direction with the vector from the ray origin to the
    space point, "f(fraction)" of the closest-point search. *)
Definition dotProductToPoint (ray : Ray3d) (spacePoint : Point3d) : number :=
  vx (direction ray) * (px spacePoint - px (origin ray))
  + vy (direction ray) * (py spacePoint - py (origin ray))
  + vz (direction ray) * (pz spacePoint - pz (origin ray)).

(** [PlaneAltitudeEvaluator]: an interface of two methods. *)
Record PlaneAltitudeEvaluator : Type := mkPlane {
  altitude : Point3d -> number;
  velocity : Vector3d -> number
}.

(** ** The stroke-emission protocol (IStrokeHandler)

    [emitStrokableParts (dest)] returns nothing and cannot observe the
    handler, so a curve's emission is the sequence of handler calls it
    makes.  A call names a curve either as the emitting curve itself
    ([This]) or as another curve ([Other], a constituent or a parent). *)

Inductive CurveRef (C : Type) : Type :=
  | This
  | Other (c : C).
Arguments This {C}.
Arguments Other {C} c.

Inductive StrokeCall (C : Type) : Type :=
  | StartCurvePrimitive (curve : option C)
  | EndCurvePrimitive
  | StartParentCurvePrimitive (curve : option C)
  | EndParentCurvePrimitive (curve : option C)
  | AnnounceIntervalForUniformStepStrokes
      (cp : C) (numStrokes : Z) (fraction0 fraction1 : number)
  | AnnounceSegmentInterval
      (cp : C) (point0 point1 : Point3d) (numStrokes : Z)
      (fraction0 fraction1 : number)
  | AnnouncePointTangent (xyz : Point3d) (fraction : number) (tangent : Vector3d).
Arguments StartCurvePrimitive {C} curve.
Arguments EndCurvePrimitive {C}.
Arguments StartParentCurvePrimitive {C} curve.
Arguments EndParentCurvePrimitive {C} curve.
Arguments AnnounceIntervalForUniformStepStrokes {C} cp numStrokes fraction0 fraction1.
Arguments AnnounceSegmentInterval {C} cp point0 point1 numStrokes fraction0 fraction1.
Arguments AnnouncePointTangent {C} xyz fraction tangent.

(** ** CurvePrimitive: the methods a curve type supplies *)
#[warnings="-register-all"]
Inductive CurvePrimitive : Type := mkCurvePrimitive {
  fractionToPoint : number -> Point3d;
  fractionToPointAndDerivative : number -> Ray3d;
  getFractionToDistanceScale : option number;
  emitStrokableParts : list (StrokeCall (CurveRef CurvePrimitive))
}.

Definition resolve (this : CurvePrimitive) (r : CurveRef CurvePrimitive)
  : CurvePrimitive :=
  match r with This => this | Other c => c end.

Definition resolveCall (this : CurvePrimitive)
  (call : StrokeCall (CurveRef CurvePrimitive)) : StrokeCall CurvePrimitive :=
  match call with
  | StartCurvePrimitive c => StartCurvePrimitive (option_map (resolve this) c)
  | EndCurvePrimitive => EndCurvePrimitive
  | StartParentCurvePrimitive c =>
      StartParentCurvePrimitive (option_map (resolve this) c)
  | EndParentCurvePrimitive c =>
      EndParentCurvePrimitive (option_map (resolve this) c)
  | AnnounceIntervalForUniformStepStrokes cp n f0 f1 =>
      AnnounceIntervalForUniformStepStrokes (resolve this cp) n f0 f1
  | AnnounceSegmentInterval cp p0 p1 n f0 f1 =>
      AnnounceSegmentInterval (resolve this cp) p0 p1 n f0 f1
  | AnnouncePointTangent xyz f t => AnnouncePointTangent xyz f t
  end.

(** The handler calls made by [this.emitStrokableParts (dest)]. *)
Definition emitted (this : CurvePrimitive) : list (StrokeCall CurvePrimitive) :=
  map (resolveCall this) (emitStrokableParts this).

(** ** CurveLocationDetail.ts *)

Inductive CurveSearchStatus : Type :=
  | error
  | success
  | stoppedAtBoundary.

(** The fields of the query result record that the queries write. *)
Record CurveLocationDetail : Type := mkDetail {
  curve : option CurvePrimitive;
  fraction : number;
  point : Point3d;
  a : number;
  curveSearchStatus : option CurveSearchStatus
}.

(** Modelled from the spec: [CurveLocationDetail.createCurveFractionPoint]
    is missing; a fresh record for a curve, a fraction and a point, with
    [a] zero and no status. *)
Definition createCurveFractionPoint (cp : CurvePrimitive) (f : number)
  (xyz : Point3d) : CurveLocationDetail :=
  mkDetail (Some cp) f xyz 0 None.

(** Modelled from the spec: [CurveLocationDetail.createCurveEvaluatedFraction]
    is missing; as above with the point evaluated on the curve. *)
Definition createCurveEvaluatedFraction (cp : CurvePrimitive) (f : number)
  : CurveLocationDetail :=
  mkDetail (Some cp) f (fractionToPoint cp f) 0 None.

(** Modelled from the spec:
    [CurveLocationDetail.createCurveFractionPointDistanceCurveSearchStatus]
    is missing; all five fields given. *)
Definition createCurveFractionPointDistanceCurveSearchStatus
  (cp : CurvePrimitive) (f : number) (xyz : Point3d) (d : number)
  (status : CurveSearchStatus) : CurveLocationDetail :=
  mkDetail (Some cp) f xyz d (Some status).

Definition with_a (d : CurveLocationDetail) (x : number) : CurveLocationDetail :=
  mkDetail (curve d) (fraction d) (point d) x (curveSearchStatus d).
Definition with_curveSearchStatus (d : CurveLocationDetail)
  (s : CurveSearchStatus) : CurveLocationDetail :=
  mkDetail (curve d) (fraction d) (point d) (a d) (Some s).
Definition with_curve (d : CurveLocationDetail) (c : CurvePrimitive)
  : CurveLocationDetail :=
  mkDetail (Some c) (fraction d) (point d) (a d) (curveSearchStatus d).

(** ** The length integrator *)
Module CurveLengthContext.
Section Handler.
Context {N : Numerics}.

Record state : Type := mk {
  _curve : option CurvePrimitive;
  _summedLength : number;
  _fraction0 : number;
  _fraction1 : number;
  _gaussMapper : GaussMapper
}.

Definition set_summedLength (st : state) (x : number) : state :=
  mk (_curve st) x (_fraction0 st) (_fraction1 st) (_gaussMapper st).

(** The cast [this._curve as CurvePrimitive] fails on undefined; the only
    caller has just stored a curve. *)
Definition tangentMagnitude (st : state) (f : number) : number :=
  match _curve st with
  | Some c => magnitude (direction (fractionToPointAndDerivative c f))
  | None => 0
  end.

Definition getSum (st : state) : number := _summedLength st.

Definition chooseMapper (numGaussPoints : Z) : GaussMapper :=
  let numGaussPoints :=
    if (5 <? numGaussPoints)%Z || (numGaussPoints <? 1)%Z then 5%Z
    else numGaussPoints in
  match numGaussPoints with
  | 1%Z => setupGauss1
  | 2%Z => setupGauss2
  | 3%Z => setupGauss3
  | 4%Z => setupGauss4
  | _ => setupGauss5
  end.

(** [new CurveLengthContext (fraction0, fraction1, numGaussPoints)];
    the defaults are 0, 1 and 5. *)
Definition new (fraction0 fraction1 : number) (numGaussPoints : Z) : state :=
  let f01 := if Js.ltb fraction0 fraction1
             then (fraction0, fraction1) else (fraction1, fraction0) in
  mk None 0 (fst f01) (snd f01) (chooseMapper numGaussPoints).

Definition startCurvePrimitive (st : state) (c : option CurvePrimitive)
  : state :=
  mk c (_summedLength st) (_fraction0 st) (_fraction1 st) (_gaussMapper st).

(** One pass of the inner loop: the weighted speeds of one step. *)
Definition addGaussPoints (st : state) (xw : list (number * number)) : state :=
  fold_left
    (fun st k =>
       set_summedLength st
         (_summedLength st + snd k * tangentMagnitude st (fst k)))
    xw st.

Definition announceIntervalForUniformStepStrokes (st : state)
  (cp : CurvePrimitive) (numStrokes : Z) (fraction0 fraction1 : number)
  : state :=
  let fraction0 :=
    if Js.ltb fraction0 (_fraction0 st) then _fraction0 st else fraction0 in
  let fraction1 :=
    if Js.gtb fraction1 (_fraction1 st) then _fraction1 st else fraction1 in
  if Js.gtb fraction1 fraction0 then
    let st := startCurvePrimitive st (Some cp) in
    let numStrokes := if (numStrokes <? 1)%Z then 1%Z else numStrokes in
    let df := 1 / int numStrokes in
    fold_left
      (fun st i =>
         let fractionA :=
           Geometry.interpolate fraction0 (int (i - 1) * df) fraction1 in
         let fractionB :=
           if (i =? numStrokes)%Z then fraction1
           else Geometry.interpolate fraction0 (int i * df) fraction1 in
         addGaussPoints st (setupGauss (_gaussMapper st) fractionA fractionB))
      (map Z.of_nat (seq 1 (Z.to_nat numStrokes))) st
  else st.

Definition announceSegmentInterval (st : state) (_cp : CurvePrimitive)
  (point0 point1 : Point3d) (_numStrokes : Z) (fraction0 fraction1 : number)
  : state :=
  let segmentLength := distance point0 point1 in
  if Js.leb (_fraction0 st) fraction0 && Js.leb fraction1 (_fraction1 st) then
    set_summedLength st (_summedLength st + segmentLength)
  else
    let g0 := fraction0 in
    let g1 := fraction1 in
    let g0 := if Js.ltb g0 (_fraction0 st) then _fraction0 st else g0 in
    let g1 := if Js.gtb g1 (_fraction1 st) then _fraction1 st else g1 in
    if Js.gtb g1 g0 then
      set_summedLength st
        (_summedLength st
         + segmentLength * (g1 - g0) / (fraction1 - fraction0))
    else st.

(** One handler call; the parent-curve calls, [endCurvePrimitive] and
    [announcePointTangent] have empty bodies. *)
Definition handle (st : state) (call : StrokeCall CurvePrimitive) : state :=
  match call with
  | StartCurvePrimitive c => startCurvePrimitive st c
  | EndCurvePrimitive => st
  | StartParentCurvePrimitive _ => st
  | EndParentCurvePrimitive _ => st
  | AnnounceIntervalForUniformStepStrokes cp n f0 f1 =>
      announceIntervalForUniformStepStrokes st cp n f0 f1
  | AnnounceSegmentInterval cp p0 p1 n f0 f1 =>
      announceSegmentInterval st cp p0 p1 n f0 f1
  | AnnouncePointTangent _ _ _ => st
  end.

End Handler.
End CurveLengthContext.

(** ** CurvePrimitive: lengths *)
Section Lengths.
Context {N : Numerics}.

(** The base-class implementation (a curve type may override it with an
    analytic length). *)
Definition curveLength (this : CurvePrimitive) : number :=
  let context := CurveLengthContext.new 0 1 5 in
  CurveLengthContext.getSum
    (fold_left CurveLengthContext.handle (emitted this) context).

Definition curveLengthBetweenFractions (this : CurvePrimitive)
  (fraction0 fraction1 : number) : number :=
  if Js.eqb fraction0 fraction1 then 0
  else
    match getFractionToDistanceScale this with
    | Some _scale =>
        let totalLength := curveLength this in
        Js.abs ((fraction1 - fraction0) * totalLength)
    | None =>
        let context := CurveLengthContext.new fraction0 fraction1 5 in
        Js.abs (CurveLengthContext.getSum
                  (fold_left CurveLengthContext.handle (emitted this) context))
    end.

(** [numGauss] defaults to 5. *)
Definition curveLengthWithFixedIntervalCountQuadrature
  (this : CurvePrimitive) (fraction0 fraction1 : number) (numInterval : Z)
  (numGauss : Z) : number :=
  let f01 := if Js.gtb fraction0 fraction1
             then (fraction1, fraction0) else (fraction0, fraction1) in
  let context := CurveLengthContext.new (fst f01) (snd f01) numGauss in
  Js.abs (CurveLengthContext.getSum
            (CurveLengthContext.announceIntervalForUniformStepStrokes
               context this numInterval (fst f01) (snd f01))).

(** Modelled from the spec:
    [CurveLocationDetail.createConditionalMoveSignedDistance] is missing.
    "If extension is disallowed and the target exits [0,1], clamp to the
    boundary and report the achieved (smaller-magnitude) distance as
    StoppedAtBoundary; else Converged" with the requested distance. *)
Definition createConditionalMoveSignedDistance (allowExtension : bool)
  (cp : CurvePrimitive) (startFraction endFraction : number)
  (requestedSignedDistance : number) : CurveLocationDetail :=
  let a := requestedSignedDistance in
  let status := success in
  let '(a, endFraction, status) :=
    if negb allowExtension && negb (Geometry.isIn01 endFraction) then
      if Js.ltb endFraction 0 then
        (- curveLengthBetweenFractions cp startFraction 0, 0, stoppedAtBoundary)
      else if Js.gtb endFraction 1 then
        (curveLengthBetweenFractions cp startFraction 1, 1, stoppedAtBoundary)
      else (a, endFraction, status)
    else (a, endFraction, status) in
  with_curveSearchStatus
    (with_a (createCurveEvaluatedFraction cp endFraction) a) status.

End Lengths.

(** ** The signed-distance repositioner *)
Section MoveSignedDistance.
Context {N : Numerics}.

(** The variables of the loop of [moveSignedDistanceFromFractionGeneric]. *)
Record MoveState : Type := mkMove {
  fractionA : number;
  fractionB : number;
  distanceA : number;
  numConverged : Z
}.

Section Loop.
Variable this : CurvePrimitive.
Variables absDistance directionFactor tol : number.

Definition distance0B (st : MoveState) : number :=
  let distanceAB :=
    curveLengthBetweenFractions this (fractionA st) (fractionB st) in
  let directionAB :=
    if Js.gtb (fractionB st) (fractionA st)
    then directionFactor else - directionFactor in
  distanceA st + directionAB * distanceAB.

Definition distanceError (st : MoveState) : number :=
  absDistance - distance0B st.

(** The Newton step from [fractionB].  Where the tangent has magnitude
    zero the quotient is [0] here and infinite or NaN in the source. *)
Definition nextFraction (st : MoveState) : number :=
  let tangent := fractionToPointAndDerivative this (fractionB st) in
  let tangentMagnitude := magnitude (direction tangent) in
  fractionB st + directionFactor * distanceError st / tangentMagnitude.

(** One pass through the loop body; the flag tells whether the pass
    left the loop by [break]. *)
Definition iteration (st : MoveState) : bool * MoveState :=
  let distance0B := distance0B st in
  let distanceError := distanceError st in
  let numConverged :=
    if Js.ltb (Js.abs distanceError) tol
    then (numConverged st + 1)%Z else 0%Z in
  if Js.ltb (Js.abs distanceError) tol && (numConverged >? 1)%Z then
    (true, mkMove (fractionA st) (fractionB st) (distanceA st) numConverged)
  else
    let fractionA := fractionB st in
    let fractionB := nextFraction st in
    if Js.eqb fractionA fractionB then
      (true, mkMove fractionA fractionB (distanceA st) 100)
    else
      (false, mkMove fractionA fractionB distance0B numConverged).

(** [for (iterations = 0; iterations < n; iterations++)] *)
Fixpoint iterations (n : nat) (st : MoveState) : MoveState :=
  match n with
  | O => st
  | S n' =>
      let '(break, st') := iteration st in
      if break then st' else iterations n' st'
  end.

(** The two tests of a pass, and the variables the next pass starts
    from when the pass does not leave the loop. *)
Definition smallError (st : MoveState) : bool :=
  Js.ltb (Js.abs (distanceError st)) tol.

Definition sameFraction (st : MoveState) : bool :=
  Js.eqb (fractionB st) (nextFraction st).

Definition advance (st : MoveState) : MoveState :=
  mkMove (fractionB st) (nextFraction st) (distance0B st)
    (if smallError st then (numConverged st + 1)%Z else 0%Z).

(** The variables at the start of pass [i], counted from 0. *)
Fixpoint estimate (i : nat) (st : MoveState) : MoveState :=
  match i with
  | O => st
  | S i' => estimate i' (advance st)
  end.

End Loop.

(** The variables on entry to the loop.  Where [availableLength] is zero
    the seed quotient is [0] here and infinite or NaN in the source. *)
Definition moveStart (this : CurvePrimitive)
  (startFraction signedDistance : number) : MoveState :=
  let limitFraction : number := if Js.gtb signedDistance 0 then 1 else 0 in
  let availableLength :=
    curveLengthBetweenFractions this startFraction limitFraction in
  let fractionStep := Js.abs signedDistance / availableLength in
  mkMove startFraction
    (Geometry.interpolate startFraction fractionStep limitFraction) 0 0.

Definition moveSignedDistanceFromFractionGeneric (this : CurvePrimitive)
  (startFraction signedDistance : number) (allowExtension : bool)
  : CurveLocationDetail :=
  let limitFraction : number := if Js.gtb signedDistance 0 then 1 else 0 in
  let absDistance := Js.abs signedDistance in
  let directionFactor : number := if Js.ltb signedDistance 0 then - (1) else 1 in
  let availableLength :=
    curveLengthBetweenFractions this startFraction limitFraction in
  if Js.ltb availableLength absDistance && negb allowExtension then
    createConditionalMoveSignedDistance allowExtension this startFraction
      limitFraction signedDistance
  else
    let fractionStep := absDistance / availableLength in
    let tol := frac 1 (10 ^ 12) * availableLength in
    (* fractionB, fractionA = startFraction, distanceA = 0, numConverged = 0 *)
    let st0 :=
      mkMove startFraction
        (Geometry.interpolate startFraction fractionStep limitFraction) 0 0 in
    let st := iterations this absDistance directionFactor tol 10 st0 in
    if (numConverged st >? 1)%Z then
      createConditionalMoveSignedDistance false this startFraction
        (fractionB st) signedDistance
    else
      with_curveSearchStatus
        (with_a (createCurveEvaluatedFraction this startFraction) 0) error.

Definition moveSignedDistanceFromFraction (this : CurvePrimitive)
  (startFraction signedDistance : number) (allowExtension : bool)
  : CurveLocationDetail :=
  match getFractionToDistanceScale this with
  | Some _scale =>
      let totalLength := curveLength this in
      match Geometry.conditionalDivideFraction signedDistance totalLength with
      | None =>
          createCurveFractionPointDistanceCurveSearchStatus this
            startFraction (fractionToPoint this startFraction) 0 error
      | Some signedFractionMove =>
          createConditionalMoveSignedDistance allowExtension this
            startFraction (startFraction + signedFractionMove) signedDistance
      end
  | None =>
      moveSignedDistanceFromFractionGeneric this startFraction signedDistance
        allowExtension
  end.

End MoveSignedDistance.

(** ** The closest-point searcher *)
Module ClosestPointStrokeHandler.
Section Handler.
Context {N : Numerics}.

Record state : Type := mk {
  _parentCurvePrimitive : option CurvePrimitive;
  _curve : option CurvePrimitive;
  _closestPoint : option CurveLocationDetail;
  _spacePoint : Point3d;
  _extend : bool;
  _fractionA : number;
  _functionA : number;
  _functionB : number;
  _fractionB : number;
  _numThisCurve : Z
}.

Definition set_closestPoint (st : state) (d : option CurveLocationDetail)
  : state :=
  mk (_parentCurvePrimitive st) (_curve st) d (_spacePoint st) (_extend st)
     (_fractionA st) (_functionA st) (_functionB st) (_fractionB st)
     (_numThisCurve st).

Definition set_curve (st : state) (c : option CurvePrimitive) : state :=
  mk (_parentCurvePrimitive st) c (_closestPoint st) (_spacePoint st)
     (_extend st) (_fractionA st) (_functionA st) (_functionB st)
     (_fractionB st) (_numThisCurve st).

Definition startCurvePrimitive (st : state) (c : option CurvePrimitive)
  : state :=
  mk (_parentCurvePrimitive st) c (_closestPoint st) (_spacePoint st)
     (_extend st) 0 0 (_functionB st) (_fractionB st) 0.

Definition startParentCurvePrimitive (st : state)
  (c : option CurvePrimitive) : state :=
  mk c (_curve st) (_closestPoint st) (_spacePoint st) (_extend st)
     (_fractionA st) (_functionA st) (_functionB st) (_fractionB st)
     (_numThisCurve st).

Definition endParentCurvePrimitive (st : state)
  (_c : option CurvePrimitive) : state :=
  startParentCurvePrimitive st None.

Definition new (spacePoint : Point3d) (extend : bool) : state :=
  startCurvePrimitive (mk None None None spacePoint extend 0 0 0 0 0) None.

Definition announceCandidate (st : state) (cp : CurvePrimitive)
  (f : number) (xyz : Point3d) : state :=
  let distance := distance (_spacePoint st) xyz in
  let keep :=
    match _closestPoint st with
    | Some best => Js.gtb distance (a best)
    | None => false
    end in
  if keep then st
  else
    let closest := with_a (createCurveFractionPoint cp f xyz) distance in
    let closest :=
      match _parentCurvePrimitive st with
      | Some parent => with_curve closest parent
      | None => closest
      end in
    set_closestPoint st (Some closest).

(** The local fraction of [announceSegmentInterval] after the clamping. *)
Definition clampLocalFraction (extend : bool) (fraction0 fraction1 : number)
  (localFraction : number) : number :=
  if negb extend then Geometry.clampToStartEnd localFraction 0 1
  else
    let localFraction :=
      if Js.neb fraction0 0 then Js.max localFraction 0 else localFraction in
    let localFraction :=
      if Js.neb fraction1 1 then Js.min localFraction 1 else localFraction in
    localFraction.

Definition announceSegmentInterval (st : state) (cp : CurvePrimitive)
  (point0 point1 : Point3d) (_numStrokes : Z) (fraction0 fraction1 : number)
  : state :=
  let localFraction :=
    fractionOfProjectionToLine (_spacePoint st) point0 point1 0 in
  let localFraction :=
    clampLocalFraction (_extend st) fraction0 fraction1 localFraction in
  let workPoint := interpolatePoint point0 localFraction point1 in
  let globalFraction := Geometry.interpolate fraction0 localFraction fraction1 in
  announceCandidate st cp globalFraction workPoint.

Definition announceSolutionFraction (st : state) (f : number) : state :=
  match _curve st with
  | Some c => announceCandidate st c f (fractionToPoint c f)
  | None => st
  end.

(** [evaluate]: the value left in [currentF], or [None] for [false]. *)
Definition evaluate (st : state) (f : number) : option number :=
  let curve :=
    match _parentCurvePrimitive st with
    | Some parent => Some parent
    | None => _curve st
    end in
  match curve with
  | Some c =>
      Some (dotProductToPoint (fractionToPointAndDerivative c f) (_spacePoint st))
  | None => None
  end.

Definition searchInterval (st : state) : state :=
  if Js.gtb (_functionA st * _functionB st) 0 then st
  else
    let st :=
      if Js.eqb (_functionA st) 0
      then announceSolutionFraction st (_fractionA st) else st in
    let st :=
      if Js.eqb (_functionB st) 0
      then announceSolutionFraction st (_fractionB st) else st in
    if Js.ltb (_functionA st * _functionB st) 0 then
      match Geometry.inverseInterpolate (_fractionA st) (_functionA st)
              (_fractionB st) (_functionB st) with
      | Some f =>
          if Js.eqb f 0 then st   (* [if (fraction)]: zero is falsy *)
          else
            match runIterations (evaluate st) f with
            | Some x => announceSolutionFraction st x
            | None => st
            end
      | None => st
      end
    else st.

Definition evaluateB (st : state) (fractionB : number) (dataB : Ray3d)
  : state :=
  mk (_parentCurvePrimitive st) (_curve st) (_closestPoint st)
     (_spacePoint st) (_extend st) (_fractionA st) (_functionA st)
     (dotProductToPoint dataB (_spacePoint st)) fractionB (_numThisCurve st).

Definition announceRay (st : state) (f : number) (data : Ray3d) : state :=
  let st := evaluateB st f data in
  let n := _numThisCurve st in
  let st :=
    mk (_parentCurvePrimitive st) (_curve st) (_closestPoint st)
       (_spacePoint st) (_extend st) (_fractionA st) (_functionA st)
       (_functionB st) (_fractionB st) (n + 1) in
  let st := if (n >? 0)%Z then searchInterval st else st in
  mk (_parentCurvePrimitive st) (_curve st) (_closestPoint st)
     (_spacePoint st) (_extend st) (_fractionB st) (_functionB st)
     (_functionB st) (_fractionB st) (_numThisCurve st).

Definition announcePointTangent (st : state) (xyz : Point3d) (f : number)
  (tangent : Vector3d) : state :=
  announceRay st f (mkRay3d xyz tangent).

Definition announceIntervalForUniformStepStrokes (st : state)
  (cp : CurvePrimitive) (numStrokes : Z) (fraction0 fraction1 : number)
  : state :=
  let st := startCurvePrimitive st (Some cp) in
  let numStrokes := if (numStrokes <? 1)%Z then 1%Z else numStrokes in
  let df := 1 / int numStrokes in
  fold_left
    (fun st i =>
       let f := Geometry.interpolate fraction0 (int i * df) fraction1 in
       announceRay st f (fractionToPointAndDerivative cp f))
    (map Z.of_nat (seq 0 (S (Z.to_nat numStrokes)))) st.

Definition handle (st : state) (call : StrokeCall CurvePrimitive) : state :=
  match call with
  | StartCurvePrimitive c => startCurvePrimitive st c
  | EndCurvePrimitive => st
  | StartParentCurvePrimitive c => startParentCurvePrimitive st c
  | EndParentCurvePrimitive c => endParentCurvePrimitive st c
  | AnnounceIntervalForUniformStepStrokes cp n f0 f1 =>
      announceIntervalForUniformStepStrokes st cp n f0 f1
  | AnnounceSegmentInterval cp p0 p1 n f0 f1 =>
      announceSegmentInterval st cp p0 p1 n f0 f1
  | AnnouncePointTangent xyz f t => announcePointTangent st xyz f t
  end.

Definition claimResult (st : state) : option CurveLocationDetail :=
  let st :=
    match _closestPoint st with
    | Some closest =>
        let st := set_curve st (curve closest) in
        match runIterations (evaluate st) (fraction closest) with
        | Some x => announceSolutionFraction st x
        | None => st
        end
    | None => st
    end in
  _closestPoint st.

End Handler.
End ClosestPointStrokeHandler.

(** ** The plane-intersection searcher *)
Module AppendPlaneIntersectionStrokeHandler.
Section Handler.
Context {N : Numerics}.

Record state : Type := mk {
  _parentCurvePrimitive : option CurvePrimitive;
  _curve : option CurvePrimitive;
  _plane : PlaneAltitudeEvaluator;
  _intersections : list CurveLocationDetail;
  _fractionA : number;
  _functionA : number;
  _functionB : number;
  _fractionB : number;
  _derivativeB : number;
  _numThisCurve : Z
}.

Definition effectiveCurve (st : state) : option CurvePrimitive :=
  match _parentCurvePrimitive st with
  | Some parent => Some parent
  | None => _curve st
  end.

Definition startCurvePrimitive (st : state) (c : option CurvePrimitive)
  : state :=
  mk (_parentCurvePrimitive st) c (_plane st) (_intersections st)
     0 0 (_functionB st) (_fractionB st) (_derivativeB st) 0.

Definition startParentCurvePrimitive (st : state)
  (c : option CurvePrimitive) : state :=
  mk c (_curve st) (_plane st) (_intersections st) (_fractionA st)
     (_functionA st) (_functionB st) (_fractionB st) (_derivativeB st)
     (_numThisCurve st).

Definition endParentCurvePrimitive (st : state)
  (_c : option CurvePrimitive) : state :=
  startParentCurvePrimitive st None.

Definition new (plane : PlaneAltitudeEvaluator)
  (intersections : list CurveLocationDetail) : state :=
  startCurvePrimitive (mk None None plane intersections 0 0 0 0 0 0) None.

(** [this._intersections.push (...)] *)
Definition announceSolutionFraction (st : state) (f : number) : state :=
  match effectiveCurve st with
  | Some c =>
      let ray := fractionToPointAndDerivative c f in
      mk (_parentCurvePrimitive st) (_curve st) (_plane st)
         (_intersections st ++ [createCurveFractionPoint c f (origin ray)])
         (_fractionA st) (_functionA st) (_functionB st) (_fractionB st)
         (_derivativeB st) (_numThisCurve st)
  | None => st
  end.

Definition evaluate (st : state) (f : number) : option number :=
  match effectiveCurve st with
  | Some c => Some (altitude (_plane st) (fractionToPoint c f))
  | None => None
  end.

Definition announceSegmentInterval (st : state) (_cp : CurvePrimitive)
  (point0 point1 : Point3d) (_numStrokes : Z) (fraction0 fraction1 : number)
  : state :=
  let h0 := altitude (_plane st) point0 in
  let h1 := altitude (_plane st) point1 in
  if Js.gtb (h0 * h1) 0 then st
  else
    match solveCoffs h0 h1 with
    | Some fraction01 =>
        let f := Geometry.interpolate fraction0 fraction01 fraction1 in
        match runIterations (evaluate st) f with
        | Some x => announceSolutionFraction st x
        | None => st
        end
    | None => st
    end.

Definition searchInterval (st : state) : state :=
  if Js.gtb (_functionA st * _functionB st) 0 then st
  else
    let st :=
      if Js.eqb (_functionA st) 0
      then announceSolutionFraction st (_fractionA st) else st in
    let st :=
      if Js.eqb (_functionB st) 0
      then announceSolutionFraction st (_fractionB st) else st in
    if Js.ltb (_functionA st * _functionB st) 0 then
      match Geometry.inverseInterpolate (_fractionA st) (_functionA st)
              (_fractionB st) (_functionB st) with
      | Some f =>
          if Js.eqb f 0 then st   (* [if (fraction)]: zero is falsy *)
          else
            match runIterations (evaluate st) f with
            | Some x => announceSolutionFraction st x
            | None => st
            end
      | None => st
      end
    else st.

Definition evaluateB (st : state) (xyz : Point3d) (f : number)
  (tangent : Vector3d) : state :=
  mk (_parentCurvePrimitive st) (_curve st) (_plane st) (_intersections st)
     (_fractionA st) (_functionA st) (altitude (_plane st) xyz) f
     (velocity (_plane st) tangent) (_numThisCurve st).

Definition announcePointTangent (st : state) (xyz : Point3d) (f : number)
  (tangent : Vector3d) : state :=
  let st := evaluateB st xyz f tangent in
  let n := _numThisCurve st in
  let st :=
    mk (_parentCurvePrimitive st) (_curve st) (_plane st) (_intersections st)
       (_fractionA st) (_functionA st) (_functionB st) (_fractionB st)
       (_derivativeB st) (n + 1) in
  let st := if (n >? 0)%Z then searchInterval st else st in
  mk (_parentCurvePrimitive st) (_curve st) (_plane st) (_intersections st)
     (_fractionB st) (_functionB st) (_functionB st) (_fractionB st)
     (_derivativeB st) (_numThisCurve st).

Definition announceIntervalForUniformStepStrokes (st : state)
  (cp : CurvePrimitive) (numStrokes : Z) (fraction0 fraction1 : number)
  : state :=
  let st := startCurvePrimitive st (Some cp) in
  let numStrokes := if (numStrokes <? 1)%Z then 1%Z else numStrokes in
  let df := 1 / int numStrokes in
  fold_left
    (fun st i =>
       let f := Geometry.interpolate fraction0 (int i * df) fraction1 in
       let ray := fractionToPointAndDerivative cp f in
       announcePointTangent st (origin ray) f (direction ray))
    (map Z.of_nat (seq 0 (S (Z.to_nat numStrokes)))) st.

Definition handle (st : state) (call : StrokeCall CurvePrimitive) : state :=
  match call with
  | StartCurvePrimitive c => startCurvePrimitive st c
  | EndCurvePrimitive => st
  | StartParentCurvePrimitive c => startParentCurvePrimitive st c
  | EndParentCurvePrimitive c => endParentCurvePrimitive st c
  | AnnounceIntervalForUniformStepStrokes cp n f0 f1 =>
      announceIntervalForUniformStepStrokes st cp n f0 f1
  | AnnounceSegmentInterval cp p0 p1 n f0 f1 =>
      announceSegmentInterval st cp p0 p1 n f0 f1
  | AnnouncePointTangent xyz f t => announcePointTangent st xyz f t
  end.

(** The handler's array after some calls: the array before, with records
    pushed at its end. *)
Definition grows (st st' : state) : Prop :=
  exists added, _intersections st' = _intersections st ++ added.

End Handler.
End AppendPlaneIntersectionStrokeHandler.

(** ** CurvePrimitive: searches *)
Section Searches.
Context {N : Numerics}.

Definition closestPoint (this : CurvePrimitive) (spacePoint : Point3d)
  (extend : bool) : option CurveLocationDetail :=
  let strokeHandler := ClosestPointStrokeHandler.new spacePoint extend in
  ClosestPointStrokeHandler.claimResult
    (fold_left ClosestPointStrokeHandler.handle (emitted this) strokeHandler).

(** The caller's array is threaded through: the result is the returned
    count and the array after the call. *)
Definition appendPlaneIntersectionPoints (this : CurvePrimitive)
  (plane : PlaneAltitudeEvaluator) (result : list CurveLocationDetail)
  : Z * list CurveLocationDetail :=
  let strokeHandler := AppendPlaneIntersectionStrokeHandler.new plane result in
  let n0 := Z.of_nat (length result) in
  let result :=
    AppendPlaneIntersectionStrokeHandler._intersections
      (fold_left AppendPlaneIntersectionStrokeHandler.handle (emitted this)
         strokeHandler) in
  (Z.of_nat (length result) - n0, result)%Z.

End Searches.

(** ** A concrete choice of the numeric collaborators

    Used by the examples only.  [sqrtExact] is the square root on squares
    of rationals (the floor of the root of numerator and denominator
    elsewhere); the examples take roots of squares only. *)
Module Exact.

Definition sqrtExact (x : number) : number :=
  Q2Qc (Z.sqrt (Qnum x) # Pos.sqrt (Qden x)).

Definition smallMetricDistanceSquared : number := frac 1 (10 ^ 12).

Definition projectionFraction (spacePoint point0 point1 : Point3d)
  (defaultFraction : number) : number :=
  let ux := px point1 - px point0 in
  let uy := py point1 - py point0 in
  let uz := pz point1 - pz point0 in
  let denominator := ux * ux + uy * uy + uz * uz in
  if Js.ltb denominator smallMetricDistanceSquared then defaultFraction
  else (ux * (px spacePoint - px point0) + uy * (py spacePoint - py point0)
        + uz * (pz spacePoint - pz point0)) / denominator.

(** Newton steps with a forward-difference derivative of step [h],
    accepted after two successive steps below [tolerance]. *)
Definition derivativeH : number := frac 1 (10 ^ 8).
Definition stepSizeTolerance : number := frac 1 (10 ^ 11).

Fixpoint newton (evaluate : number -> option number) (fuel : nat)
  (numAccepted : Z) (x : number) : option number :=
  match fuel with
  | O => None
  | S fuel' =>
      match evaluate x, evaluate (x + derivativeH) with
      | Some fA, Some fB =>
          match Geometry.conditionalDivideFraction fA ((fB - fA) / derivativeH) with
          | Some dx =>
              if Js.ltb (Js.abs (dx / (1 + Js.abs x))) stepSizeTolerance then
                if (numAccepted + 1 >=? 2)%Z then Some (x - dx)
                else newton evaluate fuel' (numAccepted + 1) (x - dx)
              else newton evaluate fuel' 0 (x - dx)
          | None => None
          end
      | _, _ => None
      end
  end.

(** The Gauss-Legendre abscissae and weights on [-1, 1], to 16 decimal
    digits, and their affine map to [xA, xB]. *)
Definition dec16 (n : Z) : number := frac n (10 ^ 16).

Definition gaussTable (m : GaussMapper) : list (number * number) :=
  match m with
  | setupGauss1 => [(0, int 2)]
  | setupGauss2 =>
      [(dec16 (-5773502691896257), 1); (dec16 5773502691896257, 1)]
  | setupGauss3 =>
      [(dec16 (-7745966692414834), dec16 5555555555555556);
       (0, dec16 8888888888888888);
       (dec16 7745966692414834, dec16 5555555555555556)]
  | setupGauss4 =>
      [(dec16 (-8611363115940526), dec16 3478548451374538);
       (dec16 (-3399810435848563), dec16 6521451548625461);
       (dec16 3399810435848563, dec16 6521451548625461);
       (dec16 8611363115940526, dec16 3478548451374538)]
  | setupGauss5 =>
      [(dec16 (-9061798459386640), dec16 2369268850561891);
       (dec16 (-5384693101056831), dec16 4786286704993665);
       (0, dec16 5688888888888889);
       (dec16 5384693101056831, dec16 4786286704993665);
       (dec16 9061798459386640, dec16 2369268850561891)]
  end.

Definition mapGauss (m : GaussMapper) (xA xB : number)
  : list (number * number) :=
  let x0 := (xA + xB) / int 2 in
  let h := (xB - xA) / int 2 in
  map (fun xw => (x0 + h * fst xw, h * snd xw)) (gaussTable m).

Definition linearRoot (a0 a1 : number) : option number :=
  Geometry.conditionalDivideFraction (- a0) (a1 - a0).

#[export] Instance numerics : Numerics := {
  sqrt := sqrtExact;
  fractionOfProjectionToLine := projectionFraction;
  runIterations := fun evaluate x => newton evaluate 15 0 x;
  setupGauss := mapGauss;
  solveCoffs := linearRoot
}.

End Exact.

(** ** Example curves *)
Module Examples.

Definition xPoint (x : number) : Point3d := mkPoint3d x 0 0.
Definition xVector (x : number) : Vector3d := mkVector3d x 0 0.

(** A line segment from (0,0,0) to (2,0,0): proportional, scale 2,
    announced as one exact segment. *)
Definition segment02 : CurvePrimitive :=
  mkCurvePrimitive
    (fun f => xPoint (int 2 * f))
    (fun f => mkRay3d (xPoint (int 2 * f)) (xVector (int 2)))
    (Some (int 2))
    [ StartCurvePrimitive (Some This);
      AnnounceSegmentInterval This (xPoint 0) (xPoint (int 2)) 1 0 1;
      EndCurvePrimitive ].

(** A line string through x = 0, 1/3, 7/3, 10/3 on the x axis: three
    segments of lengths 1/3, 2 and 1, each spanning one third of the
    fraction range, so the speed is 1, 6 and 3.  Not proportional. *)
Definition lineString : CurvePrimitive :=
  let x (f : number) : number :=
    if Js.leb f (frac 1 3) then f
    else if Js.leb f (frac 2 3) then frac 1 3 + int 6 * (f - frac 1 3)
    else frac 7 3 + int 3 * (f - frac 2 3) in
  let speed (f : number) : number :=
    if Js.ltb f (frac 1 3) then 1
    else if Js.ltb f (frac 2 3) then int 6 else int 3 in
  mkCurvePrimitive
    (fun f => xPoint (x f))
    (fun f => mkRay3d (xPoint (x f)) (xVector (speed f)))
    None
    [ StartCurvePrimitive (Some This);
      AnnounceSegmentInterval This (xPoint 0) (xPoint (frac 1 3)) 1
        0 (frac 1 3);
      AnnounceSegmentInterval This (xPoint (frac 1 3)) (xPoint (frac 7 3)) 1
        (frac 1 3) (frac 2 3);
      AnnounceSegmentInterval This (xPoint (frac 7 3)) (xPoint (frac 10 3)) 1
        (frac 2 3) 1;
      EndCurvePrimitive ].

(** The unit segment on the x axis, announcing nothing but its two
    endpoints as point-tangent samples. *)
Definition twoEndpoints : CurvePrimitive :=
  mkCurvePrimitive
    (fun f => xPoint f)
    (fun f => mkRay3d (xPoint f) (xVector 1))
    None
    [ StartCurvePrimitive (Some This);
      AnnouncePointTangent (xPoint 0) 0 (xVector 1);
      AnnouncePointTangent (xPoint 1) 1 (xVector 1);
      EndCurvePrimitive ].

(** The same unit segment, announced as four uniform steps over [0,1]
    for the handler to sample. *)
Definition uniformSteps : CurvePrimitive :=
  mkCurvePrimitive
    (fun f => xPoint f)
    (fun f => mkRay3d (xPoint f) (xVector 1))
    None
    [ StartCurvePrimitive (Some This);
      AnnounceIntervalForUniformStepStrokes This 4 0 1;
      EndCurvePrimitive ].

End Examples.

(** ** Shapes of emissions used in the statements below *)
Section EmissionShapes.
Context {N : Numerics}.



End EmissionShapes.


(** What no call to the length integrator touches: the target interval
    and the quadrature rule. *)
Definition sameTarget (st st' : CurveLengthContext.state) : Prop :=
  CurveLengthContext._fraction0 st' = CurveLengthContext._fraction0 st
  /\ CurveLengthContext._fraction1 st' = CurveLengthContext._fraction1 st
  /\ CurveLengthContext._gaussMapper st' = CurveLengthContext._gaussMapper st.

(** ** Fixed-order quadrature of a sampled interval
    The integrator as it is described: "for each uniform-step interval,
    clip to [g0,g1], then apply fixed-order Gaussian quadrature (order 1-5,
    default 5) to the tangent-magnitude (speed) function per step
    sub-interval".  These definitions follow that description; the theorems
    compare the handler with them. *)
Section QuadratureRule.
Context {N : Numerics}.

(** The order in use for a requested number of Gauss points. *)
Definition usedOrder (numGaussPoints : Z) : Z :=
  if (numGaussPoints <? 1)%Z || (5 <? numGaussPoints)%Z then 5%Z
  else numGaussPoints.

(** The speed of a curve at a fraction. *)
Definition speed (cp : CurvePrimitive) (f : number) : number :=
  magnitude (direction (fractionToPointAndDerivative cp f)).

(** The weighted speeds of rule [m] on one sub-interval. *)
Definition ruleTerms (m : GaussMapper) (cp : CurvePrimitive)
  (fractionA fractionB : number) : list number :=
  map (fun xw => snd xw * speed cp (fst xw)) (setupGauss m fractionA fractionB).

(** The weighted speeds of rule [m] on the sub-intervals of [g0, g1] cut
    into [numStrokes] steps (at least one), in the order of the steps. *)
Definition quadratureTerms (m : GaussMapper) (cp : CurvePrimitive)
  (g0 g1 : number) (numStrokes : Z) : list number :=
  let n := Z.max 1 numStrokes in
  flat_map
    (fun i =>
       ruleTerms m cp
         (Geometry.interpolate g0 (int (i - 1) * (1 / int n)) g1)
         (if (i =? n)%Z then g1
          else Geometry.interpolate g0 (int i * (1 / int n)) g1))
    (map Z.of_nat (seq 1 (Z.to_nat n))).

(** The terms added one after the other to a running sum. *)
Definition addedTo (sum : number) (terms : list number) : number :=
  fold_left Qcplus terms sum.

(** The sum after rule [m] has been applied to the part of the interval
    [fraction0, fraction1] inside the target [target0, target1]. *)
Definition clippedQuadrature (m : GaussMapper) (cp : CurvePrimitive)
  (target0 target1 : number) (numStrokes : Z) (fraction0 fraction1 : number)
  (sum : number) : number :=
  let g0 := Js.max fraction0 target0 in
  let g1 := Js.min fraction1 target1 in
  if Js.ltb g0 g1 then addedTo sum (quadratureTerms m cp g0 g1 numStrokes)
  else sum.

End QuadratureRule.

(** ** Relations between handler states used in the statements below *)
Section SearchRelations.
Context {N : Numerics}.

(** The closest-point search has gone on from [st] to [st']: same space
    point and extension flag, a best candidate that is kept or replaced by
    one at most as far, and a recorded distance that stays the distance. *)
Definition searchGoesOn (st st' : ClosestPointStrokeHandler.state) : Prop :=
  ClosestPointStrokeHandler._spacePoint st'
  = ClosestPointStrokeHandler._spacePoint st
  /\ ClosestPointStrokeHandler._extend st'
     = ClosestPointStrokeHandler._extend st
  /\ (forall best,
        ClosestPointStrokeHandler._closestPoint st = Some best ->
        exists best',
          ClosestPointStrokeHandler._closestPoint st' = Some best'
          /\ a best' <= a best)
  /\ ((forall best,
         ClosestPointStrokeHandler._closestPoint st = Some best ->
         a best = distance (ClosestPointStrokeHandler._spacePoint st) (point best)) ->
      forall best',
        ClosestPointStrokeHandler._closestPoint st' = Some best' ->
        a best' = distance (ClosestPointStrokeHandler._spacePoint st') (point best')).

(** The sampled function of the closest-point search has one strict sign
    at everything a call announces: positive, or negative when [below].
    Uniform steps sample the fractions between [fraction0] and
    [fraction1]. *)
Definition oneSign (below : bool) (x : number) : Prop :=
  if below then x < 0 else 0 < x.

Definition sampledOneSide (below : bool) (spacePoint : Point3d)
  (call : StrokeCall CurvePrimitive) : Prop :=
  match call with
  | AnnouncePointTangent xyz _ tangent =>
      oneSign below (dotProductToPoint (mkRay3d xyz tangent) spacePoint)
  | AnnounceIntervalForUniformStepStrokes cp _ fraction0 fraction1 =>
      forall t, 0 <= t <= 1 ->
        oneSign below
          (dotProductToPoint
             (fractionToPointAndDerivative cp
                (Geometry.interpolate fraction0 t fraction1))
             spacePoint)
  | AnnounceSegmentInterval _ _ _ _ _ _ => False
  | _ => True
  end.

(** What the search holds while every sample has had the same strict
    sign: no candidate, and behind the first sample of a curve a previous
    function value of that sign. *)
Definition noCandidateYet (below : bool) (spacePoint : Point3d)
  (st : ClosestPointStrokeHandler.state) : Prop :=
  ClosestPointStrokeHandler._closestPoint st = None
  /\ ClosestPointStrokeHandler._spacePoint st = spacePoint
  /\ (0 <= ClosestPointStrokeHandler._numThisCurve st)%Z
  /\ ((0 < ClosestPointStrokeHandler._numThisCurve st)%Z ->
      oneSign below (ClosestPointStrokeHandler._functionA st)).

End SearchRelations.

(** ** Relations of the plane search used in the statements below *)
Section PlaneRelations.
Context {N : Numerics}.

(** A record as the plane search pushes it: on a curve, at the origin of
    the curve's ray at the record's fraction, with [a] zero and no status. *)
Definition onItsCurve (d : CurveLocationDetail) : Prop :=
  exists c,
    curve d = Some c
    /\ point d = origin (fractionToPointAndDerivative c (fraction d))
    /\ a d = 0
    /\ curveSearchStatus d = None.

Definition growsOnCurve (st st' : AppendPlaneIntersectionStrokeHandler.state)
  : Prop :=
  exists added,
    AppendPlaneIntersectionStrokeHandler._intersections st'
    = AppendPlaneIntersectionStrokeHandler._intersections st ++ added
    /\ Forall onItsCurve added.



End PlaneRelations.

(** ** Further examples *)
Module MoreExamples.

(** A degenerate segment: both end points at the origin, proportional
    with scale 0. *)
Definition pointCurve : CurvePrimitive :=
  mkCurvePrimitive
    (fun _ => Examples.xPoint 0)
    (fun _ => mkRay3d (Examples.xPoint 0) (Examples.xVector 0))
    (Some 0)
    [ StartCurvePrimitive (Some This);
      AnnounceSegmentInterval This (Examples.xPoint 0) (Examples.xPoint 0) 1 0 1;
      EndCurvePrimitive ].

(** The plane x = offset, with its normal along the x axis. *)
Definition xPlane (offset : number) : PlaneAltitudeEvaluator :=
  mkPlane (fun p => px p - offset) (fun v => vx v).

End MoreExamples.

(** * Properties *)

(** ** The comparison operators decide the order of [Qc] *)

Lemma ltb_true (x y : number) : Js.ltb x y = true <-> x < y.
Proof.
  unfold Js.ltb. rewrite Qclt_alt.
  destruct (x ?= y); split; intro H; congruence.
Qed.

Lemma ltb_false (x y : number) : Js.ltb x y = false <-> y <= x.
Proof.
  split; intro H.
  - apply Qcnot_lt_le. intro L. apply ltb_true in L. congruence.
  - destruct (Js.ltb x y) eqn:E; [|reflexivity].
    apply ltb_true in E. exfalso. exact (Qcle_not_lt _ _ H E).
Qed.

Lemma ltb_irrefl (x : number) : Js.ltb x x = false.
Proof. apply ltb_false. apply Qcle_refl. Qed.

Lemma eqb_true (x y : number) : Js.eqb x y = true <-> x = y.
Proof.
  unfold Js.eqb. rewrite Qceq_alt.
  destruct (x ?= y); split; intro H; congruence.
Qed.

Lemma eqb_refl (x : number) : Js.eqb x x = true.
Proof. apply eqb_true. reflexivity. Qed.

Lemma eqb_false (x y : number) : Js.eqb x y = false <-> x <> y.
Proof.
  rewrite <- eqb_true. destruct (Js.eqb x y); split; congruence.
Qed.

Lemma eqb_sym (x y : number) : Js.eqb x y = Js.eqb y x.
Proof.
  destruct (Js.eqb x y) eqn:E.
  - apply eqb_true in E. subst. symmetry. apply eqb_refl.
  - symmetry. apply eqb_false. apply eqb_false in E. congruence.
Qed.

Lemma leb_true (x y : number) : Js.leb x y = true <-> x <= y.
Proof.
  unfold Js.leb. rewrite Qcle_alt.
  destruct (x ?= y); split; intro H; congruence.
Qed.

Lemma leb_false (x y : number) : Js.leb x y = false <-> y < x.
Proof.
  split; intro H.
  - apply Qcnot_le_lt. intro L. apply leb_true in L. congruence.
  - destruct (Js.leb x y) eqn:E; [|reflexivity].
    apply leb_true in E. exfalso. exact (Qcle_not_lt _ _ E H).
Qed.

Lemma abs_Qcabs (x : number) : Js.abs x = [x].
Proof.
  unfold Js.abs. destruct (Js.ltb x 0) eqn:E.
  - apply ltb_true in E. symmetry. apply Qcabs_neg.
    apply Qclt_le_weak. exact E.
  - apply ltb_false in E. symmetry. apply Qcabs_pos. exact E.
Qed.

Lemma abs_nonneg (x : number) : 0 <= Js.abs x.
Proof. rewrite abs_Qcabs. apply Qcabs_nonneg. Qed.

Lemma abs_opp (x : number) : Js.abs (- x) = Js.abs x.
Proof. rewrite !abs_Qcabs. apply Qcabs_opp. Qed.

Lemma abs_0 : Js.abs 0 = 0.
Proof. reflexivity. Qed.

(** Linear order reasoning, carried out on the underlying rationals. *)
Ltac qc_order :=
  unfold Qcle, Qclt in *;
  change (this (Q2Qc 0)) with 0%Q in *;
  change (this (Q2Qc 1)) with 1%Q in *;
  lra.

(** Evaluation of closed rational terms. *)
Ltac qc_eval := apply Qc_is_canon; vm_compute; reflexivity.
Ltac qc_differ H := apply (f_equal this) in H; vm_compute in H; discriminate H.

(** ** What the length integrator never changes *)
Section IntegratorInvariant.
Context {N : Numerics}.
Import CurveLengthContext.

Lemma sameTarget_refl (st : state) : sameTarget st st.
Proof. repeat split. Qed.

Lemma sameTarget_trans (st1 st2 st3 : state) :
  sameTarget st1 st2 -> sameTarget st2 st3 -> sameTarget st1 st3.
Proof.
  intros (A1 & A2 & A3) (B1 & B2 & B3).
  repeat split; congruence.
Qed.

Lemma fold_sameTarget {A : Type} (step : state -> A -> state) (l : list A) :
  (forall st x, sameTarget st (step st x)) ->
  forall st, sameTarget st (fold_left step l st).
Proof.
  intro Hstep. induction l as [|x l IH]; intro st; cbn [fold_left].
  - apply sameTarget_refl.
  - exact (sameTarget_trans _ _ _ (Hstep st x) (IH (step st x))).
Qed.

Lemma handle_sameTarget (st : state) (call : StrokeCall CurvePrimitive) :
  sameTarget st (handle st call).
Proof.
  destruct call; cbn [handle]; try apply sameTarget_refl.
  - repeat split.
  - unfold announceIntervalForUniformStepStrokes.
    destruct (Js.gtb _ _); [|apply sameTarget_refl].
    eapply sameTarget_trans; [|apply fold_sameTarget].
    + unfold startCurvePrimitive. repeat split.
    + intros st' i. unfold addGaussPoints. apply fold_sameTarget.
      intros st'' k. repeat split.
  - unfold announceSegmentInterval.
    destruct (_ && _); [repeat split|].
    destruct (Js.gtb _ _); [repeat split | apply sameTarget_refl].
Qed.

End IntegratorInvariant.

(** ** Lengths *)
Section LengthProperties.
Context {N : Numerics}.

Lemma new_swap (f0 f1 : number) (n : Z) :
  f0 <> f1 -> CurveLengthContext.new f0 f1 n = CurveLengthContext.new f1 f0 n.
Proof.
  intro Hne. unfold CurveLengthContext.new.
  destruct (Js.ltb f0 f1) eqn:E01, (Js.ltb f1 f0) eqn:E10; try reflexivity.
  - apply ltb_true in E01, E10. exfalso.
    exact (Qclt_not_le _ _ E01 (Qclt_le_weak _ _ E10)).
  - apply ltb_false in E01, E10. exfalso. apply Hne.
    apply Qcle_antisym; assumption.
Qed.

Lemma curveLengthBetweenFractions_swap
  (this : CurvePrimitive) (f0 f1 : number) :
  curveLengthBetweenFractions this f0 f1 = curveLengthBetweenFractions this f1 f0.
Proof.
  unfold curveLengthBetweenFractions. rewrite (eqb_sym f1 f0).
  destruct (Js.eqb f0 f1) eqn:E; [reflexivity|].
  apply eqb_false in E.
  destruct (getFractionToDistanceScale this) as [scale|].
  - rewrite <- (abs_opp ((f1 - f0) * curveLength this)).
    f_equal. ring.
  - rewrite (new_swap f0 f1 5 E). reflexivity.
Qed.

(** C7.  For every curve and all fractions f0, f1, the length between
    fractions is symmetric in its two arguments and non-negative, on the
    proportional fast path and on the stroke-integration path alike. *)
Theorem curveLengthBetweenFractions_symmetric_nonneg
  (this : CurvePrimitive) (f0 f1 : number) :
  curveLengthBetweenFractions this f0 f1 = curveLengthBetweenFractions this f1 f0
  /\ 0 <= curveLengthBetweenFractions this f0 f1.
Proof.
  split; [apply curveLengthBetweenFractions_swap|].
  unfold curveLengthBetweenFractions.
  destruct (Js.eqb f0 f1); [apply Qcle_refl|].
  destruct (getFractionToDistanceScale this); apply abs_nonneg.
Qed.

(** C5 (amended).  For a curve whose getFractionToDistanceScale () is
    defined, curveLengthBetweenFractions (f0, f1) is the absolute value of
    (f1 - f0) times the total length: the scale itself is no factor of the
    result.  The arguments may come in either order, and equal fractions
    give exactly 0. *)
Theorem curveLengthBetweenFractions_proportional
  (this : CurvePrimitive) (scale : number) (f0 f1 : number) :
  getFractionToDistanceScale this = Some scale ->
  curveLengthBetweenFractions this f0 f1
    = Js.abs (f1 - f0) * Js.abs (curveLength this)
  /\ curveLengthBetweenFractions this f0 f1
     = curveLengthBetweenFractions this f1 f0
  /\ curveLengthBetweenFractions this f0 f0 = 0.
Proof.
  intro Hscale. split; [|split].
  - unfold curveLengthBetweenFractions. rewrite Hscale.
    destruct (Js.eqb f0 f1) eqn:E.
    + apply eqb_true in E. subst f1.
      replace (f0 - f0) with 0 by ring. rewrite abs_0. ring.
    + rewrite !abs_Qcabs. apply Qcabs_Qcmult.
  - apply curveLengthBetweenFractions_swap.
  - unfold curveLengthBetweenFractions. rewrite eqb_refl. reflexivity.
Qed.

Lemma chooseMapper_order (numGauss : Z) :
  gaussOrder (CurveLengthContext.chooseMapper numGauss) = usedOrder numGauss.
Proof.
  assert (Hcases :
    (numGauss = 1 \/ numGauss = 2 \/ numGauss = 3 \/ numGauss = 4
     \/ numGauss = 5 \/ numGauss < 1 \/ 5 < numGauss)%Z) by lia.
  unfold CurveLengthContext.chooseMapper, usedOrder.
  destruct Hcases as [H|[H|[H|[H|[H|H]]]]];
    try (subst numGauss; reflexivity).
  replace ((5 <? numGauss)%Z || (numGauss <? 1)%Z) with true.
  - replace ((numGauss <? 1)%Z || (5 <? numGauss)%Z) with true; [reflexivity|].
    symmetry. apply orb_true_iff.
    destruct H; [left | right]; apply Z.ltb_lt; assumption.
  - symmetry. apply orb_true_iff.
    destruct H; [right | left]; apply Z.ltb_lt; assumption.
Qed.

(** The inner loop adds the weighted speeds of the curve in hand. *)
Lemma addGaussPoints_adds (cp : CurvePrimitive)
  (xw : list (number * number)) (st : CurveLengthContext.state) :
  CurveLengthContext._curve st = Some cp ->
  CurveLengthContext.addGaussPoints st xw
  = CurveLengthContext.set_summedLength st
      (addedTo (CurveLengthContext._summedLength st)
         (map (fun k => snd k * speed cp (fst k)) xw)).
Proof.
  unfold CurveLengthContext.addGaussPoints, addedTo.
  revert st. induction xw as [|k xw IH]; intros st Hcurve.
  - destruct st; reflexivity.
  - cbn [fold_left map]. rewrite IH by exact Hcurve.
    unfold CurveLengthContext.tangentMagnitude. rewrite Hcurve.
    reflexivity.
Qed.

(** The outer loop applies the rule the context holds to every step. *)
Lemma uniformSteps_add (cp : CurvePrimitive) (g0 g1 : number) (n : Z)
  (steps : list Z) (st : CurveLengthContext.state) :
  CurveLengthContext._curve st = Some cp ->
  fold_left
    (fun st i =>
       CurveLengthContext.addGaussPoints st
         (setupGauss (CurveLengthContext._gaussMapper st)
            (Geometry.interpolate g0 (int (i - 1) * (1 / int n)) g1)
            (if (i =? n)%Z then g1
             else Geometry.interpolate g0 (int i * (1 / int n)) g1)))
    steps st
  = CurveLengthContext.set_summedLength st
      (addedTo (CurveLengthContext._summedLength st)
         (flat_map
            (fun i =>
               ruleTerms (CurveLengthContext._gaussMapper st) cp
                 (Geometry.interpolate g0 (int (i - 1) * (1 / int n)) g1)
                 (if (i =? n)%Z then g1
                  else Geometry.interpolate g0 (int i * (1 / int n)) g1))
            steps)).
Proof.
  revert st. induction steps as [|i steps IH]; intros st Hcurve.
  - destruct st; reflexivity.
  - cbn [fold_left flat_map].
    rewrite (addGaussPoints_adds cp _ st Hcurve).
    rewrite IH by exact Hcurve.
    unfold addedTo. rewrite fold_left_app. reflexivity.
Qed.

(** A request for uniform steps adds the clipped quadrature of the rule
    the context holds, and changes nothing else but the curve in hand. *)
Lemma announceIntervalForUniformStepStrokes_sum
  (st : CurveLengthContext.state) (cp : CurvePrimitive) (numStrokes : Z)
  (fraction0 fraction1 : number) :
  CurveLengthContext._summedLength
    (CurveLengthContext.announceIntervalForUniformStepStrokes
       st cp numStrokes fraction0 fraction1)
  = clippedQuadrature (CurveLengthContext._gaussMapper st) cp
      (CurveLengthContext._fraction0 st) (CurveLengthContext._fraction1 st)
      numStrokes fraction0 fraction1 (CurveLengthContext._summedLength st).
Proof.
  unfold CurveLengthContext.announceIntervalForUniformStepStrokes,
    clippedQuadrature, quadratureTerms, Js.max, Js.min, Js.gtb.
  cbn zeta.
  destruct (Js.ltb
              (if Js.ltb fraction0 (CurveLengthContext._fraction0 st)
               then CurveLengthContext._fraction0 st else fraction0)
              (if Js.ltb (CurveLengthContext._fraction1 st) fraction1
               then CurveLengthContext._fraction1 st else fraction1));
    [|reflexivity].
  replace (if (numStrokes <? 1)%Z then 1%Z else numStrokes)
    with (Z.max 1 numStrokes)
    by (destruct (Z.ltb_spec numStrokes 1); lia).
  rewrite (uniformSteps_add cp) by reflexivity.
  reflexivity.
Qed.

(** C10.  The length integrator uses quadrature orders 1 to 5 only, and
    the order it uses is the rule it applies: for a requested count
    numGauss the rule m in use has order 5 when numGauss is below 1 or
    above 5 and order numGauss otherwise; every request for uniform steps
    made to a context built with numGauss, after whatever calls, adds the
    weighted speeds of that rule m on each step of the clipped interval;
    and curveLengthWithFixedIntervalCountQuadrature returns the absolute
    value of the sum of rule m over its interval, so it inherits the
    substitution. *)
Theorem gauss_order_selection
  (this : CurvePrimitive) (f0 f1 : number) (numInterval numGauss : Z) :
  exists m : GaussMapper,
    gaussOrder m = usedOrder numGauss
    /\ ((numGauss < 1 \/ 5 < numGauss)%Z -> m = setupGauss5)
    /\ ((1 <= numGauss <= 5)%Z -> gaussOrder m = numGauss)
    /\ (forall (calls : list (StrokeCall CurvePrimitive))
          (cp : CurvePrimitive) (numStrokes : Z) (fraction0 fraction1 : number),
          let st :=
            fold_left CurveLengthContext.handle calls
              (CurveLengthContext.new f0 f1 numGauss) in
          CurveLengthContext.getSum
            (CurveLengthContext.announceIntervalForUniformStepStrokes
               st cp numStrokes fraction0 fraction1)
          = clippedQuadrature m cp
              (Js.min f0 f1) (Js.max f0 f1)
              numStrokes fraction0 fraction1 (CurveLengthContext.getSum st))
    /\ curveLengthWithFixedIntervalCountQuadrature this f0 f1 numInterval numGauss
       = Js.abs (clippedQuadrature m this (Js.min f0 f1) (Js.max f0 f1)
                   numInterval (Js.min f0 f1) (Js.max f0 f1) 0).
Proof.
  exists (CurveLengthContext.chooseMapper numGauss).
  pose proof (chooseMapper_order numGauss) as Horder.
  assert (Hnew : forall x y,
    CurveLengthContext.new x y numGauss
    = CurveLengthContext.mk None 0 (Js.min x y) (Js.max x y)
        (CurveLengthContext.chooseMapper numGauss)).
  { intros x y. unfold CurveLengthContext.new, Js.min, Js.max.
    destruct (Js.ltb x y) eqn:Exy, (Js.ltb y x) eqn:Eyx; cbn [fst snd];
      try reflexivity.
    - apply ltb_true in Exy, Eyx. exfalso.
      exact (Qclt_not_le _ _ Exy (Qclt_le_weak _ _ Eyx)).
    - apply ltb_false in Exy, Eyx.
      assert (x = y) by (apply Qcle_antisym; assumption).
      subst y. reflexivity. }
  split; [exact Horder|]. split; [|split; [|split]].
  - intro Hout.
    assert (H5 : gaussOrder (CurveLengthContext.chooseMapper numGauss) = 5%Z).
    { rewrite Horder. unfold usedOrder.
      replace ((numGauss <? 1)%Z || (5 <? numGauss)%Z) with true; [reflexivity|].
      symmetry. apply orb_true_iff.
      destruct Hout; [left | right]; apply Z.ltb_lt; assumption. }
    destruct (CurveLengthContext.chooseMapper numGauss);
      try discriminate H5; reflexivity.
  - intro Hin. rewrite Horder. unfold usedOrder.
    replace ((numGauss <? 1)%Z || (5 <? numGauss)%Z) with false; [reflexivity|].
    symmetry. apply orb_false_iff. split; apply Z.ltb_ge; lia.
  - intros calls cp numStrokes fraction0 fraction1 st.
    unfold CurveLengthContext.getSum.
    rewrite announceIntervalForUniformStepStrokes_sum.
    destruct (fold_sameTarget CurveLengthContext.handle calls
                handle_sameTarget (CurveLengthContext.new f0 f1 numGauss))
      as (H0 & H1 & Hm).
    fold st in H0, H1, Hm. rewrite H0, H1, Hm, Hnew. reflexivity.
  - unfold curveLengthWithFixedIntervalCountQuadrature. cbn zeta.
    unfold CurveLengthContext.getSum.
    rewrite announceIntervalForUniformStepStrokes_sum.
    assert (Hpair :
      (if Js.gtb f0 f1 then (f1, f0) else (f0, f1))
      = (Js.min f0 f1, Js.max f0 f1)).
    { unfold Js.gtb, Js.min, Js.max.
      destruct (Js.ltb f1 f0) eqn:E10, (Js.ltb f0 f1) eqn:E01; try reflexivity.
      - apply ltb_true in E01, E10. exfalso.
        exact (Qclt_not_le _ _ E01 (Qclt_le_weak _ _ E10)).
      - apply ltb_false in E01, E10.
        assert (f0 = f1) by (apply Qcle_antisym; assumption).
        subst f1. reflexivity. }
    rewrite Hpair. cbn [fst snd]. rewrite Hnew.
    cbn [CurveLengthContext._gaussMapper CurveLengthContext._fraction0
         CurveLengthContext._fraction1 CurveLengthContext._summedLength].
    assert (Hmin : Js.min (Js.min f0 f1) (Js.max f0 f1) = Js.min f0 f1).
    { unfold Js.min, Js.max.
      destruct (Js.ltb f1 f0) eqn:E10, (Js.ltb f0 f1) eqn:E01;
        rewrite ?E10, ?E01, ?ltb_irrefl; reflexivity. }
    assert (Hmax : Js.max (Js.min f0 f1) (Js.max f0 f1) = Js.max f0 f1).
    { unfold Js.min, Js.max.
      destruct (Js.ltb f1 f0) eqn:E10, (Js.ltb f0 f1) eqn:E01;
        rewrite ?E10, ?E01, ?ltb_irrefl; reflexivity. }
    rewrite Hmin, Hmax. reflexivity.
Qed.

End LengthProperties.

(** ** The closest-point searcher *)
Section ClosestPointProperties.
Context {N : Numerics}.
Import ClosestPointStrokeHandler.

Lemma max_0_spec (x : number) :
  0 <= Js.max x 0 /\ (0 <= x -> Js.max x 0 = x) /\ (x < 0 -> Js.max x 0 = 0).
Proof.
  unfold Js.max. destruct (Js.ltb x 0) eqn:E;
    [apply ltb_true in E | apply ltb_false in E];
    repeat split; intros; try reflexivity; try qc_order.
Qed.

Lemma min_1_spec (x : number) :
  Js.min x 1 <= 1 /\ (x <= 1 -> Js.min x 1 = x) /\ (1 < x -> Js.min x 1 = 1)
  /\ (0 <= x -> 0 <= Js.min x 1).
Proof.
  unfold Js.min. destruct (Js.ltb 1 x) eqn:E;
    [apply ltb_true in E | apply ltb_false in E];
    repeat split; intros; try reflexivity; try qc_order.
Qed.

Lemma clampToStartEnd_01_spec (x : number) :
  0 <= Geometry.clampToStartEnd x 0 1 <= 1
  /\ (0 <= x <= 1 -> Geometry.clampToStartEnd x 0 1 = x)
  /\ (x < 0 -> Geometry.clampToStartEnd x 0 1 = 0)
  /\ (1 < x -> Geometry.clampToStartEnd x 0 1 = 1).
Proof.
  unfold Geometry.clampToStartEnd.
  replace (Js.gtb 0 1) with false by reflexivity.
  destruct (Js.ltb x 0) eqn:E0; [|destruct (Js.ltb 1 x) eqn:E1];
    repeat match goal with
           | H : Js.ltb _ _ = true |- _ => apply ltb_true in H
           | H : Js.ltb _ _ = false |- _ => apply ltb_false in H
           end;
    repeat split; intros;
    repeat match goal with H : _ /\ _ |- _ => destruct H end;
    try reflexivity; try qc_order.
Qed.

(** C8.  The candidate of an announced exact segment lies at the
    projection fraction of the space point after clamping: into [0,1]
    when extend is false; when extend is true, from below unless the
    segment begins at curve fraction 0 and from above unless it ends at
    curve fraction 1.  A segment interior to the curve is never extended,
    and a projection inside [0,1] is never moved. *)
Theorem announceSegmentInterval_clamps
  (st : state) (cp : CurvePrimitive) (point0 point1 : Point3d)
  (numStrokes : Z) (fraction0 fraction1 : number) :
  let x := fractionOfProjectionToLine (_spacePoint st) point0 point1 0 in
  let r := clampLocalFraction (_extend st) fraction0 fraction1 x in
  announceSegmentInterval st cp point0 point1 numStrokes fraction0 fraction1
    = announceCandidate st cp (Geometry.interpolate fraction0 r fraction1)
        (interpolatePoint point0 r point1)
  /\ (_extend st = false -> 0 <= r <= 1)
  /\ (fraction0 <> 0 -> 0 <= r)
  /\ (fraction1 <> 1 -> r <= 1)
  /\ (0 <= x <= 1 -> r = x)
  /\ (x < 0 ->
      r = if _extend st && Js.eqb fraction0 0 then x else 0)
  /\ (1 < x ->
      r = if _extend st && Js.eqb fraction1 1 then x else 1).
Proof.
  intros x r. split; [reflexivity|].
  subst r. generalize x. clear x. intro x.
  unfold clampLocalFraction.
  destruct (clampToStartEnd_01_spec x) as (Hc1 & Hc2 & Hc3 & Hc4).
  destruct (max_0_spec x) as (Hm1 & Hm2 & Hm3).
  destruct (min_1_spec x) as (Hn1 & Hn2 & Hn3 & Hn4).
  destruct (min_1_spec (Js.max x 0)) as (Hk1 & Hk2 & Hk3 & Hk4).
  destruct (_extend st); cbn [negb andb].
  - (* extension requested *)
    unfold Js.neb.
    destruct (Js.eqb fraction0 0) eqn:E0; cbn [negb];
      [apply eqb_true in E0 | apply eqb_false in E0];
      (destruct (Js.eqb fraction1 1) eqn:E1; cbn [negb];
       [apply eqb_true in E1 | apply eqb_false in E1]);
      repeat split; intros;
      repeat match goal with H : _ /\ _ |- _ => destruct H end;
      try congruence; auto; try qc_order.
    + apply Hn2. qc_order.
    + apply Hm2. qc_order.
    + rewrite Hm2 in * by assumption. apply Hn2. assumption.
    + rewrite Hm3 in * by assumption. apply Hk2. qc_order.
    + rewrite Hm2 in * by qc_order. auto.
  - (* no extension *)
    repeat split; intros; auto; apply Hc1.
Qed.

(** C6 (amended).  The running best candidate is kept only against a
    candidate whose distance to the space point is strictly greater; a
    candidate at a smaller or at exactly the same distance replaces it,
    so on a tie the later candidate wins. *)
Theorem announceCandidate_replaces_unless_greater
  (st : state) (cp : CurvePrimitive) (f : number) (xyz : Point3d)
  (best : CurveLocationDetail) :
  _closestPoint st = Some best ->
  let d := distance (_spacePoint st) xyz in
  (a best < d -> announceCandidate st cp f xyz = st)
  /\ (d <= a best ->
      _closestPoint (announceCandidate st cp f xyz)
        = Some (mkDetail
                  (match _parentCurvePrimitive st with
                   | Some parent => Some parent
                   | None => Some cp
                   end) f xyz d None)).
Proof.
  intros Hbest d. unfold announceCandidate. rewrite Hbest. fold d.
  unfold Js.gtb. split; intro H.
  - apply ltb_true in H. rewrite H. reflexivity.
  - apply ltb_false in H. rewrite H.
    destruct (_parentCurvePrimitive st); reflexivity.
Qed.

(** C1 (the code at the failing input).  The unit segment announcing only
    its two endpoint samples, and a space point beyond its end: the dot
    products at both samples are positive, no candidate is ever announced,
    and closestPoint returns undefined whatever the numeric collaborators
    are.  The same happens when the segment is announced as uniform steps,
    the start and end samples included. *)
Theorem closestPoint_twoEndpoints_undefined (extend : bool) :
  closestPoint Examples.twoEndpoints (Examples.xPoint (int 2)) extend = None
  /\ closestPoint Examples.uniformSteps (Examples.xPoint (int 2)) extend = None.
Proof. destruct extend; split; vm_compute; reflexivity. Qed.

End ClosestPointProperties.

(** ** The plane-intersection searcher *)
Section PlaneIntersectionProperties.
Context {N : Numerics}.
Import AppendPlaneIntersectionStrokeHandler.

Lemma grows_refl (st : state) : grows st st.
Proof. exists []. symmetry. apply app_nil_r. Qed.

Lemma grows_trans (st1 st2 st3 : state) :
  grows st1 st2 -> grows st2 st3 -> grows st1 st3.
Proof.
  intros [l1 H1] [l2 H2]. exists (l1 ++ l2).
  rewrite H2, H1. symmetry. apply app_assoc.
Qed.

Lemma grows_same (st st' : state) :
  _intersections st' = _intersections st -> grows st st'.
Proof. intro H. exists []. rewrite H. symmetry. apply app_nil_r. Qed.

Lemma announceSolutionFraction_grows (st : state) (f : number) :
  grows st (announceSolutionFraction st f).
Proof.
  unfold announceSolutionFraction.
  destruct (effectiveCurve st) as [c|]; [|apply grows_refl].
  eexists. reflexivity.
Qed.

Lemma refine_grows (st : state) (f : number) :
  grows st match runIterations (evaluate st) f with
           | Some x => announceSolutionFraction st x
           | None => st
           end.
Proof.
  destruct (runIterations (evaluate st) f);
    [apply announceSolutionFraction_grows | apply grows_refl].
Qed.

Lemma searchInterval_grows (st : state) : grows st (searchInterval st).
Proof.
  unfold searchInterval.
  destruct (Js.gtb (_functionA st * _functionB st) 0); [apply grows_refl|].
  set (st1 := if Js.eqb (_functionA st) 0
              then announceSolutionFraction st (_fractionA st) else st).
  assert (H1 : grows st st1).
  { subst st1. destruct (Js.eqb (_functionA st) 0);
      [apply announceSolutionFraction_grows | apply grows_refl]. }
  set (st2 := if Js.eqb (_functionB st1) 0
              then announceSolutionFraction st1 (_fractionB st1) else st1).
  assert (H2 : grows st1 st2).
  { subst st2. destruct (Js.eqb (_functionB st1) 0);
      [apply announceSolutionFraction_grows | apply grows_refl]. }
  apply (grows_trans _ _ _ H1). apply (grows_trans _ _ _ H2).
  destruct (Js.ltb (_functionA st2 * _functionB st2) 0); [|apply grows_refl].
  destruct (Geometry.inverseInterpolate _ _ _ _) as [f|]; [|apply grows_refl].
  destruct (Js.eqb f 0); [apply grows_refl | apply refine_grows].
Qed.

Lemma announcePointTangent_grows (st : state) (xyz : Point3d) (f : number)
  (tangent : Vector3d) : grows st (announcePointTangent st xyz f tangent).
Proof.
  unfold announcePointTangent.
  set (st1 := mk _ _ _ _ _ _ _ _ _ (_ + 1)).
  assert (H1 : grows st st1) by (apply grows_same; reflexivity).
  set (st2 := if (_ >? 0)%Z then searchInterval st1 else st1).
  assert (H2 : grows st1 st2).
  { subst st2. destruct (_ >? 0)%Z;
      [apply searchInterval_grows | apply grows_refl]. }
  apply (grows_trans _ _ _ H1). apply (grows_trans _ _ _ H2).
  apply grows_same. reflexivity.
Qed.

Lemma fold_grows {A : Type} (step : state -> A -> state) (l : list A) :
  (forall st x, grows st (step st x)) ->
  forall st, grows st (fold_left step l st).
Proof.
  intro Hstep. induction l as [|x l IH]; intro st; cbn [fold_left].
  - apply grows_refl.
  - exact (grows_trans _ _ _ (Hstep st x) (IH (step st x))).
Qed.

Lemma handle_grows (st : state) (call : StrokeCall CurvePrimitive) :
  grows st (handle st call).
Proof.
  destruct call; cbn [handle]; try (apply grows_same; reflexivity).
  - unfold announceIntervalForUniformStepStrokes.
    eapply grows_trans; [|apply fold_grows].
    + apply grows_same. reflexivity.
    + intros st' i. apply announcePointTangent_grows.
  - unfold announceSegmentInterval.
    destruct (Js.gtb _ 0); [apply grows_refl|].
    destruct (solveCoffs _ _); [apply refine_grows | apply grows_refl].
  - apply announcePointTangent_grows.
Qed.

(** C9.  appendPlaneIntersectionPoints (plane, result) returns the number
    of records appended to the caller's array during the call, and the
    array after the call is the array before it followed by the appended
    records: every earlier entry stays in place, unchanged. *)
Theorem appendPlaneIntersectionPoints_appends
  (this : CurvePrimitive) (plane : PlaneAltitudeEvaluator)
  (result : list CurveLocationDetail) :
  exists appended,
    snd (appendPlaneIntersectionPoints this plane result) = result ++ appended
    /\ fst (appendPlaneIntersectionPoints this plane result)
       = Z.of_nat (length appended).
Proof.
  unfold appendPlaneIntersectionPoints. cbn [fst snd].
  destruct (fold_grows handle (emitted this) handle_grows (new plane result))
    as [appended Happ].
  cbn [new startCurvePrimitive _intersections] in Happ.
  exists appended. split; [exact Happ|].
  rewrite Happ, length_app. lia.
Qed.

End PlaneIntersectionProperties.

(** ** The signed-distance repositioner *)
Section MoveProperties.
Context {N : Numerics}.

Section LoopFacts.
Variable this : CurvePrimitive.
Variables absDistance directionFactor tol : number.

#[warnings="-notation-for-abbreviation"]
Local Notation body := (iteration this absDistance directionFactor tol).
#[warnings="-notation-for-abbreviation"]
Local Notation loop := (iterations this absDistance directionFactor tol).
#[warnings="-notation-for-abbreviation"]
Local Notation small := (smallError this absDistance directionFactor tol).
#[warnings="-notation-for-abbreviation"]
Local Notation same := (sameFraction this absDistance directionFactor).
#[warnings="-notation-for-abbreviation"]
Local Notation next := (advance this absDistance directionFactor tol).
#[warnings="-notation-for-abbreviation"]
Local Notation entry := (estimate this absDistance directionFactor tol).

Lemma iteration_cases (st : MoveState) :
  body st =
    if small st && (numConverged st + 1 >? 1)%Z then
      (true, mkMove (fractionA st) (fractionB st) (distanceA st)
               (numConverged st + 1))
    else if same st then
      (true, mkMove (fractionB st)
               (nextFraction this absDistance directionFactor st)
               (distanceA st) 100)
    else (false, next st).
Proof.
  unfold iteration, advance, smallError, sameFraction.
  destruct (Js.ltb _ tol); cbn [andb]; reflexivity.
Qed.

(** While no pass sees the same fraction twice nor a second small error
    in a row, the counter of small errors stays at 0 or 1. *)
Lemma iterations_exhausted (n : nat) :
  forall st : MoveState,
    (numConverged st = 0
     \/ (numConverged st = 1 /\ ((0 < n)%nat -> small st = false)))%Z ->
    (forall i, (i < n)%nat -> same (entry i st) = false) ->
    (forall i, (i + 1 < n)%nat ->
               small (entry i st) && small (entry (i + 1)%nat st) = false) ->
    (numConverged (loop n st) <= 1)%Z.
Proof.
  induction n as [|n IH]; intros st Hcount Hsame Hsmall.
  - cbn. destruct Hcount as [H | [H _]]; rewrite H; lia.
  - cbn [iterations]. rewrite iteration_cases.
    pose proof (Hsame 0%nat ltac:(lia)) as Hsame0. cbn [estimate] in Hsame0.
    destruct (small st) eqn:Esmall; cbn [andb].
    + (* a small error: it must be the first in a row *)
      destruct Hcount as [H0 | [_ H1]];
        [| specialize (H1 ltac:(lia)); congruence].
      rewrite H0. change (0 + 1 >? 1)%Z with false. cbn iota.
      rewrite Hsame0.
      apply IH.
      * right. split.
        -- unfold advance. cbn [numConverged]. rewrite Esmall, H0.
           reflexivity.
        -- intro Hn. specialize (Hsmall 0%nat ltac:(lia)).
           cbn [estimate Nat.add] in Hsmall.
           rewrite Esmall in Hsmall. exact Hsmall.
      * intros i Hi. apply (Hsame (S i)). lia.
      * intros i Hi. apply (Hsmall (S i)). lia.
    + rewrite Hsame0.
      apply IH.
      * left. unfold advance. cbn [numConverged]. rewrite Esmall.
        reflexivity.
      * intros i Hi. apply (Hsame (S i)). lia.
      * intros i Hi. apply (Hsmall (S i)). lia.
Qed.

End LoopFacts.

(** C2.  When the loop of moveSignedDistanceFromFractionGeneric is entered
    and its 10 passes never see a second small distance error in a row nor
    a new fraction estimate equal to the previous one, the result has
    status error, the original start fraction, the point at the start
    fraction, and a = 0. *)
Theorem generic_exhausted_is_error
  (this : CurvePrimitive) (startFraction signedDistance : number)
  (allowExtension : bool) :
  let limitFraction : number := if Js.gtb signedDistance 0 then 1 else 0 in
  let absDistance := Js.abs signedDistance in
  let directionFactor : number :=
    if Js.ltb signedDistance 0 then - (1) else 1 in
  let availableLength :=
    curveLengthBetweenFractions this startFraction limitFraction in
  let tol := frac 1 (10 ^ 12) * availableLength in
  let pass i :=
    estimate this absDistance directionFactor tol i
      (moveStart this startFraction signedDistance) in
  Js.ltb availableLength absDistance && negb allowExtension = false ->
  (forall i, (i < 10)%nat ->
     sameFraction this absDistance directionFactor (pass i) = false) ->
  (forall i, (i + 1 < 10)%nat ->
     smallError this absDistance directionFactor tol (pass i)
     && smallError this absDistance directionFactor tol (pass (i + 1)%nat)
     = false) ->
  moveSignedDistanceFromFractionGeneric this startFraction signedDistance
    allowExtension
  = mkDetail (Some this) startFraction (fractionToPoint this startFraction)
      0 (Some error).
Proof.
  intros limitFraction absDistance directionFactor availableLength tol pass
    Hguard Hsame Hsmall.
  unfold moveSignedDistanceFromFractionGeneric.
  fold limitFraction absDistance directionFactor availableLength.
  rewrite Hguard. fold tol.
  change (mkMove startFraction _ 0 0)
    with (moveStart this startFraction signedDistance).
  pose proof (iterations_exhausted this absDistance directionFactor tol 10
                (moveStart this startFraction signedDistance)
                (or_introl eq_refl) Hsame Hsmall) as Hle.
  destruct (numConverged _ >? 1)%Z eqn:E.
  - apply Z.gtb_lt in E. lia.
  - reflexivity.
Qed.

Lemma createConditionalMoveSignedDistance_in_range
  (allowExtension : bool) (this : CurvePrimitive) (s e d : number) :
  allowExtension = true \/ 0 <= e <= 1 ->
  createConditionalMoveSignedDistance allowExtension this s e d
  = mkDetail (Some this) e (fractionToPoint this e) d (Some success).
Proof.
  intro H. unfold createConditionalMoveSignedDistance.
  replace (negb allowExtension && negb (Geometry.isIn01 e)) with false;
    [reflexivity|].
  symmetry. destruct H as [-> | [H0 H1]]; [reflexivity|].
  unfold Geometry.isIn01.
  apply leb_true in H0, H1. rewrite H0, H1. apply andb_false_r.
Qed.

Lemma conditionalDivideFraction_zero (denominator : number) :
  denominator <> 0 ->
  Geometry.conditionalDivideFraction 0 denominator = Some 0.
Proof.
  intro Hne. unfold Geometry.conditionalDivideFraction.
  rewrite abs_0. unfold Js.gtb.
  assert (Hpos : 0 < Js.abs denominator * Geometry.largeFractionResult).
  { rewrite abs_Qcabs.
    assert (H1 : 0 < [denominator]).
    { destruct (Qcle_lt_or_eq _ _ (Qcabs_nonneg denominator)) as [H|H];
        [exact H|]. symmetry in H. apply Qcabs_null in H. contradiction. }
    replace 0 with (0 * Geometry.largeFractionResult) by ring.
    apply Qcmult_lt_compat_r; [vm_compute; reflexivity | exact H1]. }
  apply ltb_true in Hpos. rewrite Hpos. f_equal. unfold Qcdiv. ring.
Qed.

Lemma curveLengthBetweenFractions_same (this : CurvePrimitive) (f : number) :
  curveLengthBetweenFractions this f f = 0.
Proof. unfold curveLengthBetweenFractions. rewrite eqb_refl. reflexivity. Qed.

(** C3 (amended).  moveSignedDistanceFromFraction (f, 0, allowExtension)
    returns the detail at fraction f with point fractionToPoint (f), a = 0
    and status success
    - on a curve with a proportional scale and a total length other than
      zero, when f lies in [0,1] or allowExtension is true;
    - on a curve without a scale, when f lies in [0,1], the length between
      fraction 0 and f is positive and the speed at f is not zero (the
      hypothesis on the speed keeps the Newton step 0 / speed defined).
    A start fraction outside [0,1] is otherwise clamped to the boundary
    and reported as stoppedAtBoundary. *)
Theorem move_zero_distance
  (this : CurvePrimitive) (f : number) (allowExtension : bool) :
  (0 <= f <= 1
   \/ (allowExtension = true /\ getFractionToDistanceScale this <> None)) ->
  match getFractionToDistanceScale this with
  | Some _ => curveLength this <> 0
  | None =>
      0 < curveLengthBetweenFractions this f 0
      /\ magnitude (direction (fractionToPointAndDerivative this f)) <> 0
  end ->
  moveSignedDistanceFromFraction this f 0 allowExtension
  = mkDetail (Some this) f (fractionToPoint this f) 0 (Some success).
Proof.
  intros Hrange Hlen. unfold moveSignedDistanceFromFraction.
  destruct (getFractionToDistanceScale this) as [scale|].
  - rewrite (conditionalDivideFraction_zero _ Hlen).
    replace (f + 0) with f by ring.
    apply createConditionalMoveSignedDistance_in_range.
    destruct Hrange as [H | [H _]]; [right | left]; assumption.
  - destruct Hrange as [Hrange | [_ H]]; [|congruence].
    destruct Hlen as [Hlen Hspeed].
    unfold moveSignedDistanceFromFractionGeneric.
    replace (Js.gtb 0 0) with false by reflexivity.
    replace (Js.ltb 0 0) with false by reflexivity.
    rewrite abs_0.
    set (availableLength := curveLengthBetweenFractions this f 0) in *.
    assert (Hguard : Js.ltb availableLength 0 = false)
      by (apply ltb_false; qc_order).
    rewrite Hguard. cbn [andb].
    replace (Geometry.interpolate f (0 / availableLength) 0) with f
      by (unfold Geometry.interpolate, Qcdiv; ring).
    set (tol := frac 1 (10 ^ 12) * availableLength).
    assert (Htol : Js.ltb 0 tol = true).
    { apply ltb_true. subst tol.
      replace 0 with (0 * availableLength) by ring.
      apply Qcmult_lt_compat_r; [exact Hlen | vm_compute; reflexivity]. }
    cbn [iterations]. rewrite iteration_cases.
    assert (Herr : distanceError this 0 1 (mkMove f f 0 0) = 0).
    { unfold distanceError, distance0B. cbn [fractionA fractionB distanceA].
      rewrite curveLengthBetweenFractions_same.
      destruct (Js.gtb f f); ring. }
    assert (Hnext : nextFraction this 0 1 (mkMove f f 0 0) = f).
    { unfold nextFraction. rewrite Herr. cbn [fractionB].
      unfold Qcdiv. ring. }
    unfold smallError, sameFraction. rewrite Herr, Hnext, abs_0, Htol.
    cbn [fractionB numConverged]. rewrite eqb_refl.
    cbn.
    apply createConditionalMoveSignedDistance_in_range. right. exact Hrange.
Qed.
(** The early return of the generic path: the record is built at the
    limit fraction, which has not left [0,1], so it carries the requested
    distance and status success. *)
Lemma generic_boundary_result
  (this : CurvePrimitive) (startFraction signedDistance : number)
  (allowExtension : bool) :
  let limitFraction : number := if Js.gtb signedDistance 0 then 1 else 0 in
  getFractionToDistanceScale this = None ->
  Js.ltb (curveLengthBetweenFractions this startFraction limitFraction)
    (Js.abs signedDistance) && negb allowExtension = true ->
  moveSignedDistanceFromFraction this startFraction signedDistance allowExtension
  = mkDetail (Some this) limitFraction (fractionToPoint this limitFraction)
      signedDistance (Some success).
Proof.
  intros limitFraction Hscale Hguard.
  unfold moveSignedDistanceFromFraction. rewrite Hscale.
  unfold moveSignedDistanceFromFractionGeneric.
  fold limitFraction. rewrite Hguard.
  apply createConditionalMoveSignedDistance_in_range.
  right. subst limitFraction.
  destruct (Js.gtb signedDistance 0); split; qc_order.
Qed.

End MoveProperties.

(** * Further properties *)

(** Linear arithmetic over [Qc], carried out on the underlying rationals. *)
Ltac qc_lra :=
  repeat match goal with
         | H : @eq Qc ?x ?y |- _ =>
             assert (x <= y) by (rewrite H; apply Qcle_refl);
             assert (y <= x) by (rewrite H; apply Qcle_refl);
             clear H
         end;
  try (apply Qc_is_canon);
  unfold Qcle, Qclt, Qcminus, Qcplus, Qcmult, Qcopp, Q2Qc in *; cbn [this] in *;
  rewrite ?Qred_correct in *; lra.

(** Turn the boolean comparisons in the context into order facts. *)
Ltac js_order :=
  repeat match goal with
         | H : Js.ltb _ _ = true |- _ => apply ltb_true in H
         | H : Js.ltb _ _ = false |- _ => apply ltb_false in H
         | H : Js.leb _ _ = true |- _ => apply leb_true in H
         | H : Js.leb _ _ = false |- _ => apply leb_false in H
         | H : Js.eqb _ _ = true |- _ => apply eqb_true in H
         | H : Js.eqb _ _ = false |- _ => apply eqb_false in H
         end.

(** ** Arithmetic used below *)

Lemma inverse_positive (w : number) : 0 < w -> 0 < / w.
Proof.
  intro H. unfold Qclt, Qcinv, Q2Qc in *. cbn [this] in *.
  rewrite ?Qred_correct in *. apply Qinv_lt_0_compat. exact H.
Qed.

Lemma product_nonneg (x y : number) : 0 <= x -> 0 <= y -> 0 <= x * y.
Proof.
  intros Hx Hy. replace 0 with (0 * y) by ring.
  apply Qcmult_le_compat_r; assumption.
Qed.
Lemma int_le (x y : Z) : (x <= y)%Z -> int x <= int y.
Proof.
  intro H. unfold int, Qcle, Q2Qc. cbn [this]. rewrite !Qred_correct.
  rewrite <- Zle_Qle. exact H.
Qed.

Lemma int_positive (x : Z) : (0 < x)%Z -> 0 < int x.
Proof.
  intro H. unfold int, Qclt, Q2Qc. cbn [this]. rewrite !Qred_correct.
  change 0%Q with (inject_Z 0). rewrite <- Zlt_Qlt. exact H.
Qed.

(** The parameter of sample [i] out of [n] uniform steps lies in [0,1]. *)
Lemma sample_parameter_in01 (i n : Z) :
  In i (map Z.of_nat (seq 0 (S (Z.to_nat n)))) -> (1 <= n)%Z ->
  0 <= int i * (1 / int n) <= 1.
Proof.
  intros Hin Hn. apply in_map_iff in Hin. destruct Hin as (k & <- & Hk).
  apply in_seq in Hk.
  assert (Hpos : 0 < int n) by (apply int_positive; lia).
  assert (Hinv : 0 < / int n) by (apply inverse_positive; exact Hpos).
  assert (Hi0 : 0 <= int (Z.of_nat k)) by (apply (int_le 0); lia).
  assert (Hin : int (Z.of_nat k) <= int n) by (apply int_le; lia).
  unfold Qcdiv. replace (1 * / int n) with (/ int n) by ring. split.
  - apply product_nonneg; [exact Hi0 | apply Qclt_le_weak; exact Hinv].
  - replace 1 with (int n * / int n).
    + apply Qcmult_le_compat_r; [exact Hin | apply Qclt_le_weak; exact Hinv].
    + apply Qcmult_inv_r. intro E. rewrite E in Hpos.
      exact (Qclt_not_le _ _ Hpos (Qcle_refl _)).
Qed.

(** ** The length integrator *)
Section IntegratorProperties.
Context {N : Numerics}.
Import CurveLengthContext.

(** X1.  Whatever a curve emits, the integrator keeps the target interval
    it was constructed with - the smaller and the larger of the two
    requested fractions, in this order - and its quadrature rule. *)
Theorem integrator_target_is_kept
  (calls : list (StrokeCall CurvePrimitive)) (fraction0 fraction1 : number)
  (numGaussPoints : Z) :
  let st := fold_left handle calls (new fraction0 fraction1 numGaussPoints) in
  _fraction0 st = Js.min fraction0 fraction1
  /\ _fraction1 st = Js.max fraction0 fraction1
  /\ _fraction0 st <= _fraction1 st
  /\ _gaussMapper st = chooseMapper numGaussPoints.
Proof.
  intro st.
  destruct (fold_sameTarget handle calls handle_sameTarget
              (new fraction0 fraction1 numGaussPoints)) as (H0 & H1 & Hm).
  fold st in H0, H1, Hm. rewrite H0, H1, Hm.
  unfold new, Js.min, Js.max. cbn [_fraction0 _fraction1 _gaussMapper].
  destruct (Js.ltb fraction0 fraction1) eqn:E01;
    destruct (Js.ltb fraction1 fraction0) eqn:E10;
    cbn [fst snd]; js_order; repeat split; try qc_lra.
Qed.

(** X2.  A chord or a uniform-step interval that lies wholly before or
    wholly after the target interval adds nothing: the integrator is left
    as it was. *)
Theorem integrator_ignores_outside (st : state)
  (call : StrokeCall CurvePrimitive) :
  match call with
  | AnnounceIntervalForUniformStepStrokes _ _ f0 f1 =>
      f1 <= _fraction0 st \/ _fraction1 st <= f0
  | AnnounceSegmentInterval _ _ _ _ f0 f1 =>
      f0 < f1 /\ (f1 <= _fraction0 st \/ _fraction1 st <= f0)
  | _ => False
  end ->
  handle st call = st.
Proof.
  destruct call; cbn [handle]; try contradiction.
  - intro H. unfold announceIntervalForUniformStepStrokes, Js.gtb.
    destruct (Js.ltb fraction0 (_fraction0 st)) eqn:E0;
      destruct (Js.ltb (_fraction1 st) fraction1) eqn:E1;
      match goal with |- (if Js.ltb ?x ?y then _ else _) = _ =>
        destruct (Js.ltb x y) eqn:E end;
      try reflexivity; js_order; exfalso; destruct H; qc_lra.
  - intros [Hw H]. unfold announceSegmentInterval, Js.gtb.
    destruct (Js.leb (_fraction0 st) fraction0) eqn:A0;
      destruct (Js.leb fraction1 (_fraction1 st)) eqn:A1; cbn [andb];
      try (js_order; exfalso; destruct H; qc_lra);
      destruct (Js.ltb fraction0 (_fraction0 st)) eqn:E0;
      destruct (Js.ltb (_fraction1 st) fraction1) eqn:E1;
      match goal with |- (if Js.ltb ?x ?y then _ else _) = _ =>
        destruct (Js.ltb x y) eqn:E end;
      try reflexivity; js_order; exfalso; destruct H; qc_lra.
Qed.


End IntegratorProperties.

(** ** The closest-point searcher, continued *)
Section SearchProperties.
Context {N : Numerics}.
Import ClosestPointStrokeHandler.

Lemma searchGoesOn_refl (st : state) : searchGoesOn st st.
Proof.
  repeat split; auto. intros best H. exists best. split; [exact H|].
  apply Qcle_refl.
Qed.

Lemma searchGoesOn_trans (st1 st2 st3 : state) :
  searchGoesOn st1 st2 -> searchGoesOn st2 st3 -> searchGoesOn st1 st3.
Proof.
  intros (A1 & A2 & A3 & A4) (B1 & B2 & B3 & B4).
  repeat split; try congruence.
  - intros best H. destruct (A3 best H) as (b2 & H2 & L2).
    destruct (B3 b2 H2) as (b3 & H3 & L3).
    exists b3. split; [exact H3|]. exact (Qcle_trans _ _ _ L3 L2).
  - intro Hm. apply B4. apply A4. exact Hm.
Qed.

(** A step that leaves the candidate, the space point and the flag alone. *)
Lemma searchGoesOn_same (st st' : state) :
  _closestPoint st' = _closestPoint st ->
  _spacePoint st' = _spacePoint st ->
  _extend st' = _extend st ->
  searchGoesOn st st'.
Proof.
  intros Hc Hs He. repeat split; auto.
  - intros best H. exists best. rewrite Hc. split; [exact H | apply Qcle_refl].
  - intros Hm best'. rewrite Hc, Hs. apply Hm.
Qed.

Lemma fold_searchGoesOn {A : Type} (step : state -> A -> state) (l : list A) :
  (forall st x, searchGoesOn st (step st x)) ->
  forall st, searchGoesOn st (fold_left step l st).
Proof.
  intro Hstep. induction l as [|x l IH]; intro st; cbn [fold_left].
  - apply searchGoesOn_refl.
  - exact (searchGoesOn_trans _ _ _ (Hstep st x) (IH (step st x))).
Qed.

(** After a candidate is announced there is a best candidate, and it is at
    most as far from the space point as the announced one. *)
Lemma announceCandidate_bound (st : state) (cp : CurvePrimitive)
  (f : number) (xyz : Point3d) :
  exists best,
    _closestPoint (announceCandidate st cp f xyz) = Some best
    /\ a best <= distance (_spacePoint st) xyz.
Proof.
  unfold announceCandidate.
  destruct (_closestPoint st) as [best|] eqn:Hbest.
  - unfold Js.gtb. destruct (Js.ltb (a best) _) eqn:E; js_order.
    + exists best. split; [exact Hbest | apply Qclt_le_weak; exact E].
    + eexists. split.
      * cbn [set_closestPoint _closestPoint]. reflexivity.
      * destruct (_parentCurvePrimitive st); cbn; apply Qcle_refl.
  - eexists. split.
    + cbn [set_closestPoint _closestPoint]. reflexivity.
    + destruct (_parentCurvePrimitive st); cbn; apply Qcle_refl.
Qed.

Lemma announceCandidate_goesOn (st : state) (cp : CurvePrimitive)
  (f : number) (xyz : Point3d) :
  searchGoesOn st (announceCandidate st cp f xyz).
Proof.
  unfold announceCandidate.
  destruct (_closestPoint st) as [best|] eqn:Hbest.
  - unfold Js.gtb. destruct (Js.ltb (a best) _) eqn:E; js_order.
    + apply searchGoesOn_same; reflexivity.
    + repeat split.
      * intros b Hb. rewrite Hbest in Hb. injection Hb as <-. eexists. split.
        -- cbn [set_closestPoint _closestPoint]. reflexivity.
        -- destruct (_parentCurvePrimitive st); cbn; exact E.
      * intros _ best' H. cbn [set_closestPoint _closestPoint _spacePoint] in *.
        injection H as <-.
        destruct (_parentCurvePrimitive st); reflexivity.
  - repeat split.
    + intros b Hb. rewrite Hbest in Hb. discriminate Hb.
    + intros _ best' H. cbn [set_closestPoint _closestPoint _spacePoint] in *.
      injection H as <-.
      destruct (_parentCurvePrimitive st); reflexivity.
Qed.

Lemma announceSolutionFraction_goesOn (st : state) (f : number) :
  searchGoesOn st (announceSolutionFraction st f).
Proof.
  unfold announceSolutionFraction.
  destruct (_curve st); [apply announceCandidate_goesOn | apply searchGoesOn_refl].
Qed.

Lemma refine_goesOn (st : state) (f : number) :
  searchGoesOn st match runIterations (evaluate st) f with
                  | Some x => announceSolutionFraction st x
                  | None => st
                  end.
Proof.
  destruct (runIterations (evaluate st) f);
    [apply announceSolutionFraction_goesOn | apply searchGoesOn_refl].
Qed.

Lemma searchInterval_goesOn (st : state) : searchGoesOn st (searchInterval st).
Proof.
  unfold searchInterval.
  destruct (Js.gtb (_functionA st * _functionB st) 0);
    [apply searchGoesOn_refl|].
  set (st1 := if Js.eqb (_functionA st) 0
              then announceSolutionFraction st (_fractionA st) else st).
  assert (H1 : searchGoesOn st st1).
  { subst st1. destruct (Js.eqb (_functionA st) 0);
      [apply announceSolutionFraction_goesOn | apply searchGoesOn_refl]. }
  set (st2 := if Js.eqb (_functionB st1) 0
              then announceSolutionFraction st1 (_fractionB st1) else st1).
  assert (H2 : searchGoesOn st1 st2).
  { subst st2. destruct (Js.eqb (_functionB st1) 0);
      [apply announceSolutionFraction_goesOn | apply searchGoesOn_refl]. }
  apply (searchGoesOn_trans _ _ _ H1). apply (searchGoesOn_trans _ _ _ H2).
  destruct (Js.ltb (_functionA st2 * _functionB st2) 0);
    [|apply searchGoesOn_refl].
  destruct (Geometry.inverseInterpolate _ _ _ _) as [f|];
    [|apply searchGoesOn_refl].
  destruct (Js.eqb f 0); [apply searchGoesOn_refl | apply refine_goesOn].
Qed.

Lemma announceRay_goesOn (st : state) (f : number) (data : Ray3d) :
  searchGoesOn st (announceRay st f data).
Proof.
  unfold announceRay.
  set (st1 := mk _ _ _ _ _ _ _ _ _ (_ + 1)).
  assert (H1 : searchGoesOn st st1) by (apply searchGoesOn_same; reflexivity).
  set (st2 := if (_ >? 0)%Z then searchInterval st1 else st1).
  assert (H2 : searchGoesOn st1 st2).
  { subst st2. destruct (_ >? 0)%Z;
      [apply searchInterval_goesOn | apply searchGoesOn_refl]. }
  apply (searchGoesOn_trans _ _ _ H1). apply (searchGoesOn_trans _ _ _ H2).
  apply searchGoesOn_same; reflexivity.
Qed.

Lemma handle_goesOn (st : state) (call : StrokeCall CurvePrimitive) :
  searchGoesOn st (handle st call).
Proof.
  destruct call; cbn [handle]; try (apply searchGoesOn_same; reflexivity).
  - unfold announceIntervalForUniformStepStrokes.
    eapply searchGoesOn_trans; [|apply fold_searchGoesOn].
    + apply searchGoesOn_same; reflexivity.
    + intros st' i. apply announceRay_goesOn.
  - apply announceCandidate_goesOn.
  - apply announceRay_goesOn.
Qed.

(** The state whose candidate [claimResult] returns. *)
Lemma claimResult_goesOn (st : state) :
  exists st', searchGoesOn st st' /\ claimResult st = _closestPoint st'.
Proof.
  unfold claimResult. destruct (_closestPoint st) as [closest|] eqn:Hc.
  - set (st1 := set_curve st (curve closest)).
    assert (H1 : searchGoesOn st st1) by (apply searchGoesOn_same; reflexivity).
    eexists. split; [|reflexivity].
    apply (searchGoesOn_trans _ _ _ H1). apply refine_goesOn.
  - exists st. split; [apply searchGoesOn_refl | reflexivity].
Qed.

(** X6.  Once the search holds a best candidate it never loses it: after
    any further handler calls and the final refinement of claimResult, the
    result is defined and at most as far from the space point. *)
Theorem search_keeps_or_improves (st : state)
  (calls : list (StrokeCall CurvePrimitive)) (best : CurveLocationDetail) :
  _closestPoint st = Some best ->
  exists best',
    claimResult (fold_left handle calls st) = Some best'
    /\ a best' <= a best.
Proof.
  intro Hbest.
  destruct (fold_searchGoesOn handle calls handle_goesOn st) as (_ & _ & H & _).
  destruct (H best Hbest) as (b1 & Hb1 & L1).
  destruct (claimResult_goesOn (fold_left handle calls st))
    as (st' & (_ & _ & H' & _) & Hres).
  destruct (H' b1 Hb1) as (b2 & Hb2 & L2).
  exists b2. rewrite Hres. split; [exact Hb2|].
  exact (Qcle_trans _ _ _ L2 L1).
Qed.

Lemma run_goesOn (this : CurvePrimitive) (spacePoint : Point3d) (extend : bool) :
  exists st',
    searchGoesOn (new spacePoint extend) st'
    /\ closestPoint this spacePoint extend = _closestPoint st'.
Proof.
  unfold closestPoint.
  destruct (claimResult_goesOn
              (fold_left handle (emitted this) (new spacePoint extend)))
    as (st' & H & Hres).
  exists st'. split; [|exact Hres].
  exact (searchGoesOn_trans _ _ _
           (fold_searchGoesOn handle _ handle_goesOn _) H).
Qed.

(** X7.  The [a] of the detail closestPoint returns is the distance from
    the space point to the detail's point. *)
Theorem closestPoint_records_distance (this : CurvePrimitive)
  (spacePoint : Point3d) (extend : bool) (detail : CurveLocationDetail) :
  closestPoint this spacePoint extend = Some detail ->
  a detail = distance spacePoint (point detail).
Proof.
  intro Hres.
  destruct (run_goesOn this spacePoint extend) as (st' & (Hs & _ & _ & Hm) & E).
  rewrite E in Hres.
  rewrite (Hm ltac:(intros b Hb; discriminate Hb) detail Hres), Hs.
  reflexivity.
Qed.

(** X8.  When the curve announces an exact segment, closestPoint returns a
    detail, and it is at most as far from the space point as the point of
    that segment at the clamped projection fraction. *)
Theorem closestPoint_defined_by_segment (this : CurvePrimitive)
  (spacePoint : Point3d) (extend : bool) (cp : CurvePrimitive)
  (point0 point1 : Point3d) (numStrokes : Z) (fraction0 fraction1 : number) :
  In (AnnounceSegmentInterval cp point0 point1 numStrokes fraction0 fraction1)
     (emitted this) ->
  exists detail,
    closestPoint this spacePoint extend = Some detail
    /\ a detail
       <= distance spacePoint
            (interpolatePoint point0
               (clampLocalFraction extend fraction0 fraction1
                  (fractionOfProjectionToLine spacePoint point0 point1 0))
               point1).
Proof.
  intro Hin. apply in_split in Hin. destruct Hin as (l1 & l2 & Hsplit).
  unfold closestPoint. rewrite Hsplit, fold_left_app. cbn [fold_left].
  set (st1 := fold_left handle l1 (new spacePoint extend)).
  destruct (fold_searchGoesOn handle l1 handle_goesOn (new spacePoint extend))
    as (Hs & He & _ & _).
  fold st1 in Hs, He. cbn [new startCurvePrimitive _spacePoint _extend] in Hs, He.
  cbn [handle]. unfold announceSegmentInterval. rewrite Hs, He.
  match goal with |- context [announceCandidate st1 cp ?g ?w] =>
    set (st2 := announceCandidate st1 cp g w);
    destruct (announceCandidate_bound st1 cp g w) as (b & Hb & Lb)
  end.
  fold st2 in Hb.
  destruct (fold_searchGoesOn handle l2 handle_goesOn st2) as (_ & _ & H & _).
  destruct (H b Hb) as (b1 & Hb1 & L1).
  destruct (claimResult_goesOn (fold_left handle l2 st2))
    as (st' & (_ & _ & H' & _) & Hres).
  destruct (H' b1 Hb1) as (b2 & Hb2 & L2).
  exists b2. rewrite Hres. split; [exact Hb2|].
  rewrite Hs in Lb.
  exact (Qcle_trans _ _ _ L2 (Qcle_trans _ _ _ L1 Lb)).
Qed.

Lemma oneSign_product (below : bool) (x y : number) :
  oneSign below x -> oneSign below y -> 0 < x * y.
Proof.
  destruct below; cbn [oneSign]; intros Hx Hy.
  - replace (x * y) with ((- x) * (- y)) by ring.
    replace 0 with (0 * (- y)) by ring.
    apply Qcmult_lt_compat_r; qc_lra.
  - replace 0 with (0 * y) by ring.
    apply Qcmult_lt_compat_r; assumption.
Qed.

Lemma announceRay_noCandidateYet (below : bool) (spacePoint : Point3d)
  (st : state) (f : number) (data : Ray3d) :
  noCandidateYet below spacePoint st ->
  oneSign below (dotProductToPoint data spacePoint) ->
  noCandidateYet below spacePoint (announceRay st f data).
Proof.
  intros (Hc & Hs & Hn & Hsign) Hdata. unfold announceRay, evaluateB.
  cbn [_numThisCurve _parentCurvePrimitive _curve _closestPoint _spacePoint
       _extend _fractionA _functionA _functionB _fractionB].
  rewrite Hs.
  destruct (_numThisCurve st >? 0)%Z eqn:E.
  - apply Z.gtb_lt in E.
    unfold searchInterval.
    cbn [_functionA _functionB]. unfold Js.gtb.
    replace (Js.ltb 0 (_functionA st * dotProductToPoint data spacePoint))
      with true
      by (symmetry; apply ltb_true; apply (oneSign_product below); auto).
    unfold noCandidateYet.
    cbn [_numThisCurve _parentCurvePrimitive _curve _closestPoint _spacePoint
         _extend _fractionA _functionA _functionB _fractionB].
    repeat split; auto; try lia.
  - unfold noCandidateYet.
    cbn [_numThisCurve _parentCurvePrimitive _curve _closestPoint _spacePoint
         _extend _fractionA _functionA _functionB _fractionB].
    repeat split; auto; try lia.
Qed.

Lemma announceRays_noCandidateYet (below : bool) (spacePoint : Point3d)
  (cp : CurvePrimitive) (fractionAt : Z -> number) (steps : list Z) :
  (forall i, In i steps ->
     oneSign below
       (dotProductToPoint (fractionToPointAndDerivative cp (fractionAt i))
          spacePoint)) ->
  forall st,
    noCandidateYet below spacePoint st ->
    noCandidateYet below spacePoint
      (fold_left
         (fun st i =>
            announceRay st (fractionAt i)
              (fractionToPointAndDerivative cp (fractionAt i)))
         steps st).
Proof.
  induction steps as [|i steps IH]; intros Hside st Hst;
    cbn [fold_left]; [exact Hst|].
  apply IH.
  - intros j Hj. apply Hside. right. exact Hj.
  - apply announceRay_noCandidateYet; [exact Hst|].
    apply Hside. left. reflexivity.
Qed.

Lemma handle_noCandidateYet (below : bool) (spacePoint : Point3d)
  (st : state) (call : StrokeCall CurvePrimitive) :
  noCandidateYet below spacePoint st ->
  sampledOneSide below spacePoint call ->
  noCandidateYet below spacePoint (handle st call).
Proof.
  intros Hinv Hcall.
  destruct call; cbn [handle sampledOneSide] in *; try contradiction.
  - destruct Hinv as (Hc & Hs & _ & _).
    repeat split; cbn; auto; lia.
  - exact Hinv.
  - destruct Hinv as (Hc & Hs & Hn & Hsign). repeat split; auto.
  - destruct Hinv as (Hc & Hs & Hn & Hsign). repeat split; auto.
  - unfold announceIntervalForUniformStepStrokes.
    apply (announceRays_noCandidateYet below spacePoint cp
             (fun i => Geometry.interpolate fraction0
                         (int i * (1 / int (if (numStrokes <? 1)%Z then 1%Z
                                            else numStrokes)))
                         fraction1)).
    + intros i Hi. apply Hcall. apply sample_parameter_in01; [exact Hi|].
      destruct (numStrokes <? 1)%Z eqn:E; [lia | apply Z.ltb_ge in E; lia].
    + destruct Hinv as (Hc & Hs & _ & _). repeat split; cbn; auto; lia.
  - unfold announcePointTangent.
    apply announceRay_noCandidateYet; assumption.
Qed.

(** X9.  When the sampled function - tangent dotted with the vector to the
    space point - has the same strict sign at every sample the curve
    announces (point-tangent samples or uniform steps, no exact segment),
    no candidate is ever offered and closestPoint returns undefined.  An
    empty emission is a case of this. *)
Theorem closestPoint_undefined_on_one_side (this : CurvePrimitive)
  (spacePoint : Point3d) (extend below : bool) :
  Forall (sampledOneSide below spacePoint) (emitted this) ->
  closestPoint this spacePoint extend = None.
Proof.
  intro Hside. unfold closestPoint.
  assert (Hrun : forall calls, Forall (sampledOneSide below spacePoint) calls ->
            forall st, noCandidateYet below spacePoint st ->
                       noCandidateYet below spacePoint (fold_left handle calls st)).
  { induction 1 as [|call calls Hcall _ IH]; intros st Hst; cbn [fold_left];
      [exact Hst|].
    apply IH. apply handle_noCandidateYet; assumption. }
  destruct (Hrun _ Hside (new spacePoint extend)) as (Hc & _).
  { repeat split; cbn; auto; lia. }
  unfold claimResult. rewrite Hc. exact Hc.
Qed.

End SearchProperties.

(** ** The plane-intersection searcher, continued *)
Section PlaneSearchProperties.
Context {N : Numerics}.
Import AppendPlaneIntersectionStrokeHandler.

Lemma growsOnCurve_refl (st : state) : growsOnCurve st st.
Proof. exists []. split; [symmetry; apply app_nil_r | constructor]. Qed.

Lemma growsOnCurve_trans (st1 st2 st3 : state) :
  growsOnCurve st1 st2 -> growsOnCurve st2 st3 -> growsOnCurve st1 st3.
Proof.
  intros (l1 & H1 & F1) (l2 & H2 & F2). exists (l1 ++ l2). split.
  - rewrite H2, H1. symmetry. apply app_assoc.
  - apply Forall_app. split; assumption.
Qed.

Lemma growsOnCurve_same (st st' : state) :
  _intersections st' = _intersections st -> growsOnCurve st st'.
Proof.
  intro H. exists []. split; [rewrite H; symmetry; apply app_nil_r | constructor].
Qed.

Lemma fold_growsOnCurve {A : Type} (step : state -> A -> state) (l : list A) :
  (forall st x, growsOnCurve st (step st x)) ->
  forall st, growsOnCurve st (fold_left step l st).
Proof.
  intro Hstep. induction l as [|x l IH]; intro st; cbn [fold_left].
  - apply growsOnCurve_refl.
  - exact (growsOnCurve_trans _ _ _ (Hstep st x) (IH (step st x))).
Qed.

Lemma announceSolutionFraction_onCurve (st : state) (f : number) :
  growsOnCurve st (announceSolutionFraction st f).
Proof.
  unfold announceSolutionFraction.
  destruct (effectiveCurve st) as [c|]; [|apply growsOnCurve_refl].
  eexists. split; [reflexivity|].
  constructor; [|constructor]. exists c. repeat split.
Qed.

Lemma refine_onCurve (st : state) (f : number) :
  growsOnCurve st match runIterations (evaluate st) f with
                  | Some x => announceSolutionFraction st x
                  | None => st
                  end.
Proof.
  destruct (runIterations (evaluate st) f);
    [apply announceSolutionFraction_onCurve | apply growsOnCurve_refl].
Qed.

Lemma searchInterval_onCurve (st : state) : growsOnCurve st (searchInterval st).
Proof.
  unfold searchInterval.
  destruct (Js.gtb (_functionA st * _functionB st) 0);
    [apply growsOnCurve_refl|].
  set (st1 := if Js.eqb (_functionA st) 0
              then announceSolutionFraction st (_fractionA st) else st).
  assert (H1 : growsOnCurve st st1).
  { subst st1. destruct (Js.eqb (_functionA st) 0);
      [apply announceSolutionFraction_onCurve | apply growsOnCurve_refl]. }
  set (st2 := if Js.eqb (_functionB st1) 0
              then announceSolutionFraction st1 (_fractionB st1) else st1).
  assert (H2 : growsOnCurve st1 st2).
  { subst st2. destruct (Js.eqb (_functionB st1) 0);
      [apply announceSolutionFraction_onCurve | apply growsOnCurve_refl]. }
  apply (growsOnCurve_trans _ _ _ H1). apply (growsOnCurve_trans _ _ _ H2).
  destruct (Js.ltb (_functionA st2 * _functionB st2) 0);
    [|apply growsOnCurve_refl].
  destruct (Geometry.inverseInterpolate _ _ _ _) as [f|];
    [|apply growsOnCurve_refl].
  destruct (Js.eqb f 0); [apply growsOnCurve_refl | apply refine_onCurve].
Qed.

Lemma announcePointTangent_onCurve (st : state) (xyz : Point3d) (f : number)
  (tangent : Vector3d) : growsOnCurve st (announcePointTangent st xyz f tangent).
Proof.
  unfold announcePointTangent.
  set (st1 := mk _ _ _ _ _ _ _ _ _ (_ + 1)).
  assert (H1 : growsOnCurve st st1) by (apply growsOnCurve_same; reflexivity).
  set (st2 := if (_ >? 0)%Z then searchInterval st1 else st1).
  assert (H2 : growsOnCurve st1 st2).
  { subst st2. destruct (_ >? 0)%Z;
      [apply searchInterval_onCurve | apply growsOnCurve_refl]. }
  apply (growsOnCurve_trans _ _ _ H1). apply (growsOnCurve_trans _ _ _ H2).
  apply growsOnCurve_same. reflexivity.
Qed.

Lemma handle_onCurve (st : state) (call : StrokeCall CurvePrimitive) :
  growsOnCurve st (handle st call).
Proof.
  destruct call; cbn [handle]; try (apply growsOnCurve_same; reflexivity).
  - unfold announceIntervalForUniformStepStrokes.
    eapply growsOnCurve_trans; [|apply fold_growsOnCurve].
    + apply growsOnCurve_same. reflexivity.
    + intros st' i. apply announcePointTangent_onCurve.
  - unfold announceSegmentInterval.
    destruct (Js.gtb _ 0); [apply growsOnCurve_refl|].
    destruct (solveCoffs _ _); [apply refine_onCurve | apply growsOnCurve_refl].
  - apply announcePointTangent_onCurve.
Qed.

(** X10.  Every record appendPlaneIntersectionPoints appends names a curve
    and carries the origin of that curve's ray at the record's fraction,
    with [a] zero and no search status. *)
Theorem appended_records_lie_on_curve
  (this : CurvePrimitive) (plane : PlaneAltitudeEvaluator)
  (result : list CurveLocationDetail) :
  exists appended,
    snd (appendPlaneIntersectionPoints this plane result) = result ++ appended
    /\ Forall onItsCurve appended.
Proof.
  unfold appendPlaneIntersectionPoints. cbn [snd].
  destruct (fold_growsOnCurve handle (emitted this) handle_onCurve
              (new plane result)) as (appended & Happ & Hall).
  cbn [new startCurvePrimitive _intersections] in Happ.
  exists appended. split; assumption.
Qed.





Lemma announceSolutionFraction_push (st : state) (c : CurvePrimitive)
  (f : number) :
  effectiveCurve st = Some c ->
  announceSolutionFraction st f
  = mk (_parentCurvePrimitive st) (_curve st) (_plane st)
      (_intersections st
       ++ [createCurveFractionPoint c f
             (origin (fractionToPointAndDerivative c f))])
      (_fractionA st) (_functionA st) (_functionB st) (_fractionB st)
      (_derivativeB st) (_numThisCurve st).
Proof.
  intro Hc. unfold announceSolutionFraction. rewrite Hc. reflexivity.
Qed.

Lemma product_zero_tests (x : number) :
  Js.gtb (x * 0) 0 = false /\ Js.ltb (x * 0) 0 = false
  /\ Js.gtb (0 * x) 0 = false /\ Js.ltb (0 * x) 0 = false.
Proof.
  unfold Js.gtb. replace (x * 0) with 0 by ring. replace (0 * x) with 0 by ring.
  rewrite ltb_irrefl. repeat split.
Qed.

(** A zero at the later sample of an interval is announced there. *)
Lemma searchInterval_zero_at_B (st : state) (c : CurvePrimitive) :
  effectiveCurve st = Some c ->
  _functionA st <> 0 -> _functionB st = 0 ->
  searchInterval st = announceSolutionFraction st (_fractionB st).
Proof.
  intros Hc HA HB. apply eqb_false in HA.
  destruct (product_zero_tests (_functionA st)) as (P1 & P2 & _ & _).
  unfold searchInterval. rewrite HB, P1, HA. cbv zeta.
  rewrite HB, eqb_refl.
  rewrite (announceSolutionFraction_push st c _ Hc).
  cbn [_functionA _functionB]. rewrite HB, P2. reflexivity.
Qed.

(** A zero at the earlier sample of an interval is announced there. *)
Lemma searchInterval_zero_at_A (st : state) (c : CurvePrimitive) :
  effectiveCurve st = Some c ->
  _functionA st = 0 -> _functionB st <> 0 ->
  searchInterval st = announceSolutionFraction st (_fractionA st).
Proof.
  intros Hc HA HB. apply eqb_false in HB.
  destruct (product_zero_tests (_functionB st)) as (_ & _ & P3 & P4).
  unfold searchInterval. rewrite HA, P3, eqb_refl. cbv zeta.
  rewrite (announceSolutionFraction_push st c _ Hc).
  cbn [_functionA _functionB]. rewrite HB. cbv iota.
  cbn [_functionA _functionB]. rewrite HA, P4. reflexivity.
Qed.

(** X12.  A crossing that falls exactly on an interior sample is appended
    twice: once as the end of the interval before it and once as the start
    of the interval after it. *)
Theorem zero_at_sample_is_appended_twice
  (st : state) (c : CurvePrimitive)
  (xyz1 xyz2 : Point3d) (f1 f2 : number) (tangent1 tangent2 : Vector3d) :
  effectiveCurve st = Some c ->
  (0 < _numThisCurve st)%Z ->
  _functionA st <> 0 ->
  altitude (_plane st) xyz1 = 0 ->
  altitude (_plane st) xyz2 <> 0 ->
  let detail :=
    createCurveFractionPoint c f1
      (origin (fractionToPointAndDerivative c f1)) in
  _intersections
    (announcePointTangent (announcePointTangent st xyz1 f1 tangent1)
       xyz2 f2 tangent2)
  = _intersections st ++ [detail; detail].
Proof.
  intros Hc Hn HA H1 H2 detail.
  assert (Hgt : (_numThisCurve st >? 0)%Z = true) by (apply Z.gtb_lt; exact Hn).
  assert (Hgt' : (_numThisCurve st + 1 >? 0)%Z = true) by (apply Z.gtb_lt; lia).
  (* the first sample: the zero is the later end of its interval *)
  assert (Hfirst :
    announcePointTangent st xyz1 f1 tangent1
    = mk (_parentCurvePrimitive st) (_curve st) (_plane st)
        (_intersections st ++ [detail]) f1 0 0 f1
        (velocity (_plane st) tangent1) (_numThisCurve st + 1)).
  { unfold announcePointTangent, evaluateB.
    cbn [_numThisCurve _parentCurvePrimitive _curve _plane _intersections
         _fractionA _functionA _functionB _fractionB _derivativeB].
    rewrite Hgt, H1.
    rewrite (searchInterval_zero_at_B _ c)
      by first [exact Hc | exact HA | reflexivity].
    rewrite (announceSolutionFraction_push _ c) by exact Hc.
    reflexivity. }
  rewrite Hfirst.
  (* the second sample: the zero is the earlier end of its interval *)
  unfold announcePointTangent, evaluateB.
  cbn [_numThisCurve _parentCurvePrimitive _curve _plane _intersections
       _fractionA _functionA _functionB _fractionB _derivativeB].
  rewrite Hgt'.
  rewrite (searchInterval_zero_at_A _ c)
    by first [exact Hc | exact H2 | reflexivity].
  rewrite (announceSolutionFraction_push _ c) by exact Hc.
  cbn [_intersections _fractionA]. rewrite <- app_assoc. reflexivity.
Qed.

End PlaneSearchProperties.

(** ** The signed-distance repositioner, continued *)
Section RepositionerProperties.
Context {N : Numerics}.

Lemma not_in01 (x : number) :
  Geometry.isIn01 x = false -> x < 0 \/ 1 < x.
Proof.
  unfold Geometry.isIn01. intro H. apply andb_false_iff in H.
  destruct H as [H | H]; js_order; [left | right]; exact H.
Qed.

(** The record the conditional constructor builds. *)
Lemma createConditionalMoveSignedDistance_shape (allowExtension : bool)
  (cp : CurvePrimitive) (s e d : number) :
  let r := createConditionalMoveSignedDistance allowExtension cp s e d in
  curve r = Some cp
  /\ point r = fractionToPoint cp (fraction r)
  /\ (curveSearchStatus r = Some success
      \/ curveSearchStatus r = Some stoppedAtBoundary)
  /\ (allowExtension = false -> 0 <= fraction r <= 1).
Proof.
  unfold createConditionalMoveSignedDistance.
  destruct allowExtension; cbn [negb andb].
  - cbn. split; [reflexivity|]. split; [reflexivity|].
    split; [left; reflexivity | discriminate].
  - destruct (Geometry.isIn01 e) eqn:E; cbn [negb].
    + cbn. split; [reflexivity|]. split; [reflexivity|].
      split; [left; reflexivity|]. intros _.
      unfold Geometry.isIn01 in E. apply andb_true_iff in E.
      destruct E. js_order. split; assumption.
    + destruct (not_in01 e E) as [H | H].
      * apply ltb_true in H. rewrite H. cbn.
        split; [reflexivity|]. split; [reflexivity|].
        split; [right; reflexivity|]. intros _. split; qc_lra.
      * assert (H' : Js.ltb e 0 = false) by (apply ltb_false; qc_lra).
        unfold Js.gtb. apply ltb_true in H. rewrite H', H. cbn.
        split; [reflexivity|]. split; [reflexivity|].
        split; [right; reflexivity|]. intros _. split; qc_lra.
Qed.

(** X13.  Every detail moveSignedDistanceFromFraction returns is consistent:
    it names the curve, its point is the curve point at its fraction, and
    it has a status; with status error it is the start fraction with
    a = 0. *)
Theorem move_result_is_consistent (this : CurvePrimitive)
  (startFraction signedDistance : number) (allowExtension : bool) :
  let r :=
    moveSignedDistanceFromFraction this startFraction signedDistance
      allowExtension in
  curve r = Some this
  /\ point r = fractionToPoint this (fraction r)
  /\ curveSearchStatus r <> None
  /\ (curveSearchStatus r = Some error ->
      fraction r = startFraction /\ a r = 0).
Proof.
  assert (Hcond : forall ext s e d,
            let r := createConditionalMoveSignedDistance ext this s e d in
            curve r = Some this
            /\ point r = fractionToPoint this (fraction r)
            /\ curveSearchStatus r <> None
            /\ (curveSearchStatus r = Some error ->
                fraction r = startFraction /\ a r = 0)).
  { intros ext s e d r.
    destruct (createConditionalMoveSignedDistance_shape ext this s e d)
      as (H1 & H2 & H3 & _).
    fold r in H1, H2, H3. split; [exact H1|]. split; [exact H2|].
    split; destruct H3 as [H3 | H3]; rewrite H3; discriminate. }
  unfold moveSignedDistanceFromFraction.
  destruct (getFractionToDistanceScale this) as [scale|].
  - destruct (Geometry.conditionalDivideFraction _ _); [apply Hcond|].
    cbn. split; [reflexivity|]. split; [reflexivity|].
    split; [discriminate|]. intros _. split; reflexivity.
  - unfold moveSignedDistanceFromFractionGeneric.
    destruct (_ && _); [apply Hcond|].
    destruct (_ >? 1)%Z; [apply Hcond|].
    cbn. split; [reflexivity|]. split; [reflexivity|].
    split; [discriminate|]. intros _. split; reflexivity.
Qed.


Lemma abs_large_positive (denominator : number) :
  denominator <> 0 ->
  0 < Js.abs denominator * Geometry.largeFractionResult.
Proof.
  intro Hne. rewrite abs_Qcabs.
  assert (H1 : 0 < [denominator]).
  { destruct (Qcle_lt_or_eq _ _ (Qcabs_nonneg denominator)) as [H|H];
      [exact H|]. symmetry in H. apply Qcabs_null in H. contradiction. }
  replace 0 with (0 * Geometry.largeFractionResult) by ring.
  apply Qcmult_lt_compat_r; [vm_compute; reflexivity | exact H1].
Qed.

(** X15.  On a curve with a proportional scale whose total length is zero,
    moveSignedDistanceFromFraction fails for every requested distance: the
    result is the start fraction and its point, a = 0, status error. *)
Theorem move_on_zero_length_is_error (this : CurvePrimitive)
  (scale startFraction signedDistance : number) (allowExtension : bool) :
  getFractionToDistanceScale this = Some scale ->
  curveLength this = 0 ->
  moveSignedDistanceFromFraction this startFraction signedDistance
    allowExtension
  = mkDetail (Some this) startFraction (fractionToPoint this startFraction)
      0 (Some error).
Proof.
  intros Hscale Hzero. unfold moveSignedDistanceFromFraction.
  rewrite Hscale, Hzero. unfold Geometry.conditionalDivideFraction.
  rewrite abs_0. replace (0 * Geometry.largeFractionResult) with 0 by ring.
  unfold Js.gtb.
  replace (Js.ltb (Js.abs signedDistance) 0) with false
    by (symmetry; apply ltb_false; apply abs_nonneg).
  reflexivity.
Qed.

(** X16.  On a curve with a proportional scale, with extension allowed and
    a distance the conditional division accepts, a move is never clamped:
    from any start fraction, also one outside [0,1], it lands at
    startFraction + signedDistance / totalLength with a = signedDistance
    and status success; the opposite distance is accepted from the fraction
    reached as well, and lands at that fraction plus
    (- signedDistance) / totalLength with a = - signedDistance. *)
Theorem move_with_extension_is_unclamped (this : CurvePrimitive)
  (scale startFraction signedDistance : number) :
  getFractionToDistanceScale this = Some scale ->
  Js.abs signedDistance
  < Js.abs (curveLength this) * Geometry.largeFractionResult ->
  let there :=
    moveSignedDistanceFromFraction this startFraction signedDistance true in
  there
  = mkDetail (Some this)
      (startFraction + signedDistance / curveLength this)
      (fractionToPoint this (startFraction + signedDistance / curveLength this))
      signedDistance (Some success)
  /\ moveSignedDistanceFromFraction this (fraction there) (- signedDistance) true
     = mkDetail (Some this)
         (fraction there + - signedDistance / curveLength this)
         (fractionToPoint this
            (fraction there + - signedDistance / curveLength this))
         (- signedDistance) (Some success).
Proof.
  intros Hscale Hsmall there.
  apply ltb_true in Hsmall.
  split.
  - subst there. unfold moveSignedDistanceFromFraction. rewrite Hscale.
    unfold Geometry.conditionalDivideFraction, Js.gtb. rewrite Hsmall.
    apply createConditionalMoveSignedDistance_in_range. left. reflexivity.
  - generalize (fraction there). intro reached.
    unfold moveSignedDistanceFromFraction. rewrite Hscale.
    unfold Geometry.conditionalDivideFraction, Js.gtb.
    rewrite abs_opp, Hsmall.
    apply createConditionalMoveSignedDistance_in_range. left. reflexivity.
Qed.

(** X17.  On a curve with a proportional scale, a move without extension
    whose distance the conditional division accepts ends according to its
    target startFraction + signedDistance / totalLength: beyond 1 it stops
    at fraction 1 with status stoppedAtBoundary and a the length from the
    start to the end, |(1 - startFraction) x totalLength|; before 0 it
    stops at fraction 0 with status stoppedAtBoundary and a the negated
    length from the start, - |(0 - startFraction) x totalLength|; inside
    [0,1] it lands on the target with a = signedDistance and status
    success. *)
Theorem move_stops_at_boundary (this : CurvePrimitive)
  (scale startFraction signedDistance : number) :
  getFractionToDistanceScale this = Some scale ->
  Js.abs signedDistance
  < Js.abs (curveLength this) * Geometry.largeFractionResult ->
  let target := startFraction + signedDistance / curveLength this in
  let moved :=
    moveSignedDistanceFromFraction this startFraction signedDistance false in
  (1 < target ->
   moved
   = mkDetail (Some this) 1 (fractionToPoint this 1)
       (Js.abs ((1 - startFraction) * curveLength this))
       (Some stoppedAtBoundary))
  /\ (target < 0 ->
      moved
      = mkDetail (Some this) 0 (fractionToPoint this 0)
          (- Js.abs ((0 - startFraction) * curveLength this))
          (Some stoppedAtBoundary))
  /\ (0 <= target <= 1 ->
      moved
      = mkDetail (Some this) target (fractionToPoint this target)
          signedDistance (Some success)).
Proof.
  intros Hscale Hsmall target moved.
  set (L := curveLength this) in *.
  assert (Hmoved :
    moved
    = createConditionalMoveSignedDistance false this startFraction target
        signedDistance).
  { subst moved. unfold moveSignedDistanceFromFraction. rewrite Hscale.
    fold L. unfold Geometry.conditionalDivideFraction, Js.gtb.
    apply ltb_true in Hsmall. rewrite Hsmall. reflexivity. }
  assert (Hlen : forall e,
    curveLengthBetweenFractions this startFraction e
    = Js.abs ((e - startFraction) * L)).
  { intro e. unfold curveLengthBetweenFractions. rewrite Hscale. fold L.
    destruct (Js.eqb startFraction e) eqn:E; [|reflexivity].
    apply eqb_true in E. subst e.
    replace ((startFraction - startFraction) * L) with 0 by ring.
    rewrite abs_0. reflexivity. }
  rewrite Hmoved. split; [|split].
  - intro Hbeyond. unfold createConditionalMoveSignedDistance.
    cbn [negb andb].
    replace (Geometry.isIn01 target) with false.
    2:{ symmetry. unfold Geometry.isIn01. apply andb_false_iff. right.
        apply leb_false. exact Hbeyond. }
    cbn [negb].
    replace (Js.ltb target 0) with false
      by (symmetry; apply ltb_false; qc_lra).
    unfold Js.gtb. apply ltb_true in Hbeyond. rewrite Hbeyond.
    cbn. rewrite Hlen. reflexivity.
  - intro Hbefore. unfold createConditionalMoveSignedDistance.
    cbn [negb andb].
    replace (Geometry.isIn01 target) with false.
    2:{ symmetry. unfold Geometry.isIn01. apply andb_false_iff. left.
        apply leb_false. exact Hbefore. }
    cbn [negb].
    apply ltb_true in Hbefore. rewrite Hbefore.
    cbn. rewrite Hlen. reflexivity.
  - intro Hin. apply createConditionalMoveSignedDistance_in_range.
    right. exact Hin.
Qed.

(** X18.  When the loop of the generic search ends with its counter above
    1 - the only way to a success of the search - the distance error of
    the last pass was below the tolerance, or the last Newton step left
    the fraction unchanged. *)
Theorem generic_success_is_earned (this : CurvePrimitive)
  (absDistance directionFactor tol : number) (n : nat) :
  forall st : MoveState,
    (0 <= numConverged st <= 1)%Z ->
    let final := iterations this absDistance directionFactor tol n st in
    (numConverged final > 1)%Z ->
    smallError this absDistance directionFactor tol final = true
    \/ fractionA final = fractionB final.
Proof.
  induction n as [|n IH]; intros st Hcount final Hfinal; subst final.
  - cbn [iterations] in Hfinal. lia.
  - cbn [iterations] in *. rewrite iteration_cases in *.
    destruct (smallError this absDistance directionFactor tol st) eqn:Esmall;
      cbn [andb] in *.
    + destruct (numConverged st + 1 >? 1)%Z eqn:Egt.
      * left. exact Esmall.
      * destruct (sameFraction this absDistance directionFactor st) eqn:Esame.
        -- right. cbn [fractionA fractionB].
           unfold sameFraction in Esame. apply eqb_true in Esame. exact Esame.
        -- apply IH; [|exact Hfinal]. unfold advance. cbn [numConverged].
           rewrite Esmall. rewrite Z.gtb_ltb in Egt.
           apply Z.ltb_ge in Egt. lia.
    + destruct (sameFraction this absDistance directionFactor st) eqn:Esame.
      * right. cbn [fractionA fractionB].
        unfold sameFraction in Esame. apply eqb_true in Esame. exact Esame.
      * apply IH; [|exact Hfinal]. unfold advance. cbn [numConverged].
        rewrite Esmall. lia.
Qed.

(** X5.  The fixed-count quadrature length does not depend on the order of
    its two fractions, is never negative, and is 0 for equal fractions. *)
Theorem quadrature_length_symmetric_nonneg (this : CurvePrimitive)
  (f0 f1 : number) (numInterval numGauss : Z) :
  curveLengthWithFixedIntervalCountQuadrature this f0 f1 numInterval numGauss
  = curveLengthWithFixedIntervalCountQuadrature this f1 f0 numInterval numGauss
  /\ 0 <= curveLengthWithFixedIntervalCountQuadrature this f0 f1 numInterval
            numGauss
  /\ curveLengthWithFixedIntervalCountQuadrature this f0 f0 numInterval numGauss
     = 0.
Proof.
  unfold curveLengthWithFixedIntervalCountQuadrature, Js.gtb.
  split; [|split].
  - destruct (Js.ltb f1 f0) eqn:E10; destruct (Js.ltb f0 f1) eqn:E01;
      cbn [fst snd]; try reflexivity; js_order.
    + exfalso. qc_lra.
    + assert (f0 = f1) by qc_lra. subst f1. reflexivity.
  - apply abs_nonneg.
  - rewrite ltb_irrefl. cbn [fst snd].
    unfold CurveLengthContext.announceIntervalForUniformStepStrokes,
      CurveLengthContext.new, Js.gtb.
    rewrite ltb_irrefl.
    cbn [fst snd CurveLengthContext._fraction0 CurveLengthContext._fraction1].
    rewrite !ltb_irrefl. reflexivity.
Qed.

End RepositionerProperties.

(** * The properties on the example curves *)

Import Exact Examples.

(** Witness for C2, on the line string: from fraction 0, the distance 5/6
    ends inside the fast middle segment; the estimates alternate between 5/6
    and 1/6 and the search gives up. *)
Lemma generic_exhausted_is_error_witness :
  moveSignedDistanceFromFractionGeneric lineString 0 (frac 5 6) false
  = mkDetail (Some lineString) 0 (fractionToPoint lineString 0) 0 (Some error).
Proof.
  apply (generic_exhausted_is_error lineString 0 (frac 5 6) false).
  - vm_compute. reflexivity.
  - intros i Hi.
    do 10 (destruct i as [|i]; [vm_compute; reflexivity|]).
    exfalso. lia.
  - intros i Hi.
    do 9 (destruct i as [|i]; [vm_compute; reflexivity|]).
    exfalso. lia.
Defined.

(** Counterexample to C3 as stated: on the proportional segment of length
    2, a zero move from fraction 3/2 without extension is clamped to the end
    point. *)
Lemma move_zero_distance_counterexample :
  0 < curveLength segment02
  /\ ~ (point (moveSignedDistanceFromFraction segment02 (frac 3 2) 0 false)
        = fractionToPoint segment02 (frac 3 2)
        /\ a (moveSignedDistanceFromFraction segment02 (frac 3 2) 0 false) = 0
        /\ curveSearchStatus
             (moveSignedDistanceFromFraction segment02 (frac 3 2) 0 false)
           = Some success).
Proof.
  split; [vm_compute; reflexivity|].
  intros (_ & _ & H). vm_compute in H. discriminate H.
Defined.

(** Witness for C3: a zero move from the middle of the line string. *)
Lemma move_zero_distance_witness :
  moveSignedDistanceFromFraction lineString (frac 1 2) 0 false
  = mkDetail (Some lineString) (frac 1 2)
      (fractionToPoint lineString (frac 1 2)) 0 (Some success).
Proof.
  apply (move_zero_distance lineString (frac 1 2) false).
  - left. split; vm_compute; discriminate.
  - cbn [getFractionToDistanceScale lineString]. split.
    + vm_compute. reflexivity.
    + intro H. qc_differ H.
Defined.

(** C4 (the code at the failing input).  The line string has no
    proportional scale and length 10/3; asked to move 20/3 from fraction 0
    without extension, the generic path returns at once at the end fraction
    1, with the requested distance 20/3 in [a] and status success. *)
Theorem generic_boundary_reports_success :
  getFractionToDistanceScale lineString = None
  /\ curveLengthBetweenFractions lineString 0 1 = frac 10 3
  /\ moveSignedDistanceFromFraction lineString 0 (frac 20 3) false
     = mkDetail (Some lineString) 1 (fractionToPoint lineString 1)
         (frac 20 3) (Some success).
Proof.
  split; [reflexivity|]. split; [qc_eval|].
  assert (Hlimit : (if Js.gtb (frac 20 3) 0 then 1 else 0) = 1)
    by (vm_compute; reflexivity).
  rewrite <- Hlimit at 1 2.
  apply (generic_boundary_result lineString 0 (frac 20 3) false);
    [reflexivity|].
  vm_compute. reflexivity.
Qed.

(** Counterexample to C5 as stated: the segment of length 2 has scale 2,
    and the length of its whole fraction range is 2, not 2 * 2 * 1. *)
Lemma curveLengthBetweenFractions_proportional_counterexample :
  getFractionToDistanceScale segment02 = Some (int 2)
  /\ curveLengthBetweenFractions segment02 0 1
     <> int 2 * curveLength segment02 * Js.abs (1 - 0).
Proof.
  split; [reflexivity|]. intro H. qc_differ H.
Defined.

(** Witness for C5: the last three quarters of the segment, backwards. *)
Lemma curveLengthBetweenFractions_proportional_witness :
  curveLengthBetweenFractions segment02 1 (frac 1 4)
  = Js.abs (frac 1 4 - 1) * Js.abs (curveLength segment02).
Proof.
  destruct (curveLengthBetweenFractions_proportional segment02 (int 2)
              1 (frac 1 4) eq_refl) as (H & _ & _).
  exact H.
Defined.

(** Counterexample to C6 as stated: a later candidate at exactly the
    distance of the current best replaces it. *)
Lemma announceCandidate_tie_counterexample :
  let st0 := ClosestPointStrokeHandler.new (xPoint 0) false in
  let st1 :=
    ClosestPointStrokeHandler.announceCandidate st0 segment02
      (frac 1 2) (xPoint 1) in
  let st2 :=
    ClosestPointStrokeHandler.announceCandidate st1 segment02
      (frac (-1) 2) (xPoint (int (-1))) in
  distance (xPoint 0) (xPoint (int (-1))) = distance (xPoint 0) (xPoint 1)
  /\ option_map fraction (ClosestPointStrokeHandler._closestPoint st1)
     = Some (frac 1 2)
  /\ ClosestPointStrokeHandler._closestPoint st2
     <> ClosestPointStrokeHandler._closestPoint st1.
Proof.
  cbv zeta. split; [qc_eval|]. split.
  - cbn. f_equal.
  - intro H. apply (f_equal (option_map fraction)) in H.
    vm_compute in H. discriminate H.
Defined.

(** Witness for C6: a candidate farther away leaves the best untouched. *)
Lemma announceCandidate_replaces_unless_greater_witness :
  let st1 :=
    ClosestPointStrokeHandler.announceCandidate
      (ClosestPointStrokeHandler.new (xPoint 0) false) segment02
      (frac 1 2) (xPoint 1) in
  ClosestPointStrokeHandler.announceCandidate st1 segment02 1 (xPoint (int 2))
  = st1.
Proof.
  cbv zeta.
  set (st1 := ClosestPointStrokeHandler.announceCandidate _ _ _ _).
  assert (Hbest :
    ClosestPointStrokeHandler._closestPoint st1
    = Some (mkDetail (Some segment02) (frac 1 2) (xPoint 1)
              (distance (xPoint 0) (xPoint 1)) None)) by reflexivity.
  apply (proj1 (announceCandidate_replaces_unless_greater st1 segment02 1
                  (xPoint (int 2)) _ Hbest)).
  vm_compute. reflexivity.
Defined.

(** Witness for C8: on the segment from 0 to 2, the projection of (3,0,0)
    lies at 3/2 and is pulled back to 1 when extension is not requested. *)
Lemma announceSegmentInterval_clamps_witness :
  ClosestPointStrokeHandler.clampLocalFraction false 0 1
    (fractionOfProjectionToLine (xPoint (int 3)) (xPoint 0) (xPoint (int 2)) 0)
  = 1.
Proof.
  destruct (announceSegmentInterval_clamps
              (ClosestPointStrokeHandler.new (xPoint (int 3)) false)
              segment02 (xPoint 0) (xPoint (int 2)) 1 0 1)
    as (_ & _ & _ & _ & _ & _ & H).
  apply H. vm_compute. reflexivity.
Defined.

(** Witness for C10: on the unit segment sampled in two steps, six points
    requested give the sum of the five-point rule, three points requested
    the sum of the three-point rule. *)
Lemma gauss_order_selection_witness :
  curveLengthWithFixedIntervalCountQuadrature uniformSteps 0 1 2 6
  = Js.abs (clippedQuadrature setupGauss5 uniformSteps 0 1 2 0 1 0)
  /\ curveLengthWithFixedIntervalCountQuadrature uniformSteps 0 1 2 3
     = Js.abs (clippedQuadrature setupGauss3 uniformSteps 0 1 2 0 1 0).
Proof.
  split.
  - destruct (gauss_order_selection uniformSteps 0 1 2 6)
      as (m & _ & Hout & _ & _ & H).
    rewrite (Hout (or_intror eq_refl)) in H. exact H.
  - destruct (gauss_order_selection uniformSteps 0 1 2 3)
      as (m & _ & _ & Hin & _ & H).
    assert (Hm : m = setupGauss3).
    { assert (H3 : (1 <= 3 <= 5)%Z) by (split; discriminate).
      specialize (Hin H3).
      destruct m; try discriminate Hin; reflexivity. }
    rewrite Hm in H. exact H.
Defined.

(** * The further properties on the example curves *)

Import MoreExamples.

(** Witness for X2: the first third of a chord run does not count towards
    the length over [1/2, 1]. *)
Lemma integrator_ignores_outside_witness :
  CurveLengthContext.handle (CurveLengthContext.new (frac 1 2) 1 5)
    (AnnounceSegmentInterval lineString (xPoint 0) (xPoint (frac 1 3)) 1
       0 (frac 1 3))
  = CurveLengthContext.new (frac 1 2) 1 5.
Proof.
  apply (integrator_ignores_outside (CurveLengthContext.new (frac 1 2) 1 5)).
  split; [vm_compute; reflexivity | left; vm_compute; discriminate].
Defined.



(** Witness for X6: the search over the segment, entered with a candidate
    at distance 1. *)
Lemma search_keeps_or_improves_witness :
  exists best',
    ClosestPointStrokeHandler.claimResult
      (fold_left ClosestPointStrokeHandler.handle (emitted segment02)
         (ClosestPointStrokeHandler.announceCandidate
            (ClosestPointStrokeHandler.new (xPoint 0) false) segment02
            (frac 1 2) (xPoint 1)))
    = Some best'
    /\ a best' <= distance (xPoint 0) (xPoint 1).
Proof.
  exact (search_keeps_or_improves
           (ClosestPointStrokeHandler.announceCandidate
              (ClosestPointStrokeHandler.new (xPoint 0) false) segment02
              (frac 1 2) (xPoint 1))
           (emitted segment02)
           (mkDetail (Some segment02) (frac 1 2) (xPoint 1)
              (distance (xPoint 0) (xPoint 1)) None)
           eq_refl).
Defined.

(** Witness for X7: the closest point of the segment to (3,0,0). *)
Lemma closestPoint_records_distance_witness :
  match closestPoint segment02 (xPoint (int 3)) false with
  | Some detail => a detail = distance (xPoint (int 3)) (point detail)
  | None => False
  end.
Proof.
  destruct (closestPoint segment02 (xPoint (int 3)) false) as [detail|] eqn:E.
  - exact (closestPoint_records_distance _ _ _ _ E).
  - vm_compute in E. discriminate E.
Defined.

(** Witness for X8: the segment announces itself as one exact segment. *)
Lemma closestPoint_defined_by_segment_witness :
  exists detail,
    closestPoint segment02 (xPoint (int 3)) false = Some detail
    /\ a detail
       <= distance (xPoint (int 3))
            (interpolatePoint (xPoint 0)
               (ClosestPointStrokeHandler.clampLocalFraction false 0 1
                  (fractionOfProjectionToLine (xPoint (int 3)) (xPoint 0)
                     (xPoint (int 2)) 0))
               (xPoint (int 2))).
Proof.
  apply (closestPoint_defined_by_segment segment02 (xPoint (int 3)) false
           segment02 (xPoint 0) (xPoint (int 2)) 1 0 1).
  right. left. reflexivity.
Defined.

(** Witness for X9: the unit segment sampled in uniform steps, seen from
    beyond its end. *)
Lemma closestPoint_undefined_on_one_side_witness :
  closestPoint uniformSteps (xPoint (int 2)) false = None.
Proof.
  apply (closestPoint_undefined_on_one_side uniformSteps (xPoint (int 2))
           false false).
  unfold emitted. cbn [map emitStrokableParts uniformSteps resolveCall].
  repeat (apply Forall_cons; [cbn [sampledOneSide]; try exact I|]);
    [|apply Forall_nil].
  intros t Ht.
  cbn [resolve uniformSteps fractionToPointAndDerivative oneSign].
  unfold dotProductToPoint, xPoint, xVector, Geometry.interpolate.
  cbn [direction origin px py pz vx vy vz].
  change (int 2) with (1 + 1). destruct Ht. qc_lra.
Defined.


(** Witness for X12: samples at x = -1, 0, 1 against the plane x = 0. *)
Lemma zero_at_sample_is_appended_twice_witness :
  let st :=
    AppendPlaneIntersectionStrokeHandler.announcePointTangent
      (AppendPlaneIntersectionStrokeHandler.startCurvePrimitive
         (AppendPlaneIntersectionStrokeHandler.new (xPlane 0) [])
         (Some twoEndpoints))
      (xPoint (- (1))) (- (1)) (xVector 1) in
  AppendPlaneIntersectionStrokeHandler._intersections
    (AppendPlaneIntersectionStrokeHandler.announcePointTangent
       (AppendPlaneIntersectionStrokeHandler.announcePointTangent st
          (xPoint 0) 0 (xVector 1))
       (xPoint 1) 1 (xVector 1))
  = [ createCurveFractionPoint twoEndpoints 0 (xPoint 0);
      createCurveFractionPoint twoEndpoints 0 (xPoint 0) ].
Proof.
  intro st.
  apply (zero_at_sample_is_appended_twice st twoEndpoints (xPoint 0) (xPoint 1)
           0 1 (xVector 1) (xVector 1)).
  - reflexivity.
  - reflexivity.
  - intro H. qc_differ H.
  - qc_eval.
  - intro H. qc_differ H.
Defined.

(** Witness for X13: the search that gives up on the line string. *)
Lemma move_result_is_consistent_witness :
  fraction (moveSignedDistanceFromFraction lineString 0 (frac 5 6) false) = 0
  /\ a (moveSignedDistanceFromFraction lineString 0 (frac 5 6) false) = 0.
Proof.
  apply (move_result_is_consistent lineString 0 (frac 5 6) false).
  vm_compute. reflexivity.
Defined.


(** Witness for X15: no move along the degenerate segment. *)
Lemma move_on_zero_length_is_error_witness :
  moveSignedDistanceFromFraction pointCurve (frac 1 2) 1 true
  = mkDetail (Some pointCurve) (frac 1 2) (fractionToPoint pointCurve (frac 1 2))
      0 (Some error).
Proof.
  apply (move_on_zero_length_is_error pointCurve 0 (frac 1 2) 1 true).
  - reflexivity.
  - qc_eval.
Defined.

(** Witness for X16: 1 forward from the last quarter of the segment of
    length 2, to fraction 5/4. *)
Lemma move_with_extension_is_unclamped_witness :
  moveSignedDistanceFromFraction segment02 (frac 3 4) 1 true
  = mkDetail (Some segment02)
      (frac 3 4 + 1 / curveLength segment02)
      (fractionToPoint segment02 (frac 3 4 + 1 / curveLength segment02))
      1 (Some success).
Proof.
  apply (move_with_extension_is_unclamped segment02 (int 2) (frac 3 4) 1).
  - reflexivity.
  - vm_compute. reflexivity.
Defined.

(** Witness for X17: 3 forward from the middle of the segment of length 2. *)
Lemma move_stops_at_boundary_witness :
  moveSignedDistanceFromFraction segment02 (frac 1 2) (int 3) false
  = mkDetail (Some segment02) 1 (fractionToPoint segment02 1)
      (Js.abs ((1 - frac 1 2) * curveLength segment02))
      (Some stoppedAtBoundary).
Proof.
  apply (move_stops_at_boundary segment02 (int 2) (frac 1 2) (int 3)).
  - reflexivity.
  - vm_compute. reflexivity.
  - vm_compute. reflexivity.
Defined.

(** Witness for X18: the search for the distance 5/2 along the line string
    ends with its counter above 1. *)
Lemma generic_success_is_earned_witness :
  let tol := frac 1 (10 ^ 12) * curveLengthBetweenFractions lineString 0 1 in
  let final :=
    iterations lineString (frac 5 2) 1 tol 10
      (moveStart lineString 0 (frac 5 2)) in
  smallError lineString (frac 5 2) 1 tol final = true
  \/ fractionA final = fractionB final.
Proof.
  intros tol final.
  apply (generic_success_is_earned lineString (frac 5 2) 1 tol 10
           (moveStart lineString 0 (frac 5 2))).
  - cbn. lia.
  - vm_compute. reflexivity.
Defined.
